(** * Step Tracker API: a shallow embedding of [backend/main.py]

    The handlers of [main.py] are embedded as functions in a small
    state-and-exception monad.  Documents are Python dictionaries, modelled
    as [gmap string value]; the store adapter ([database.py]) and the request
    schemas ([schemas.py]) are modelled after the specification. *)

From Stdlib Require Import ZArith QArith Lia List Sorted Permutation Ascii.
From stdpp Require Import base option list gmap strings pretty.

Open Scope string_scope.
Open Scope Z_scope.

(** ** Python values *)

Module Py.

(** [datetime.date]: ordered lexicographically by year, month and day. *)
Record date := Date { year : Z; month : Z; day : Z }.

(** A naive [datetime.datetime]. *)
Record datetime := Datetime {
  dt_date : date; hour : Z; minute : Z; second : Z; microsecond : Z }.

(** The values a document of the store can hold.  A float is a finite one,
    modelled by its exact rational value; an [ObjectId] by the number it
    was drawn from.  A [str] is the UTF-8 byte string of its characters. *)
Inductive value :=
  | VNone
  | VInt (z : Z)
  | VFloat (q : Q)
  | VStr (s : string)
  | VDate (d : date)
  | VDatetime (t : datetime)
  | VOid (n : N).

(** A document is a dictionary with string keys. *)
Abbreviation doc := (gmap string value).

(** Exceptions.  [HTTPException] is the one the handlers raise themselves;
    [Exception] stands for every other [Exception] subclass and carries
    [str(e)]. *)
Inductive exn :=
  | HTTPException (status_code : Z) (detail : string)
  | Exception (msg : string).

Definition date_compare (a b : date) : comparison :=
  match year a ?= year b with
  | Eq => match month a ?= month b with
          | Eq => day a ?= day b
          | c => c
          end
  | c => c
  end.

Definition date_le (a b : date) : bool :=
  match date_compare a b with Gt => false | _ => true end.

(** *** [str] *)

(** Decimal digits of [n], left-padded with zeros to [width] characters. *)
Fixpoint zeros (k : nat) : string :=
  match k with O => "" | S k => "0" +:+ zeros k end.

Definition zfill (width : nat) (n : Z) : string :=
  let s := pretty (Z.to_N n) in
  zeros (width - String.length s) +:+ s.

(** [date.isoformat()], which is [str] on a date. *)
Definition date_str (d : date) : string :=
  zfill 4 (year d) +:+ "-" +:+ zfill 2 (month d) +:+ "-" +:+ zfill 2 (day d).

Definition datetime_str (t : datetime) : string :=
  date_str (dt_date t) +:+ " " +:+ zfill 2 (hour t) +:+ ":" +:+
  zfill 2 (minute t) +:+ ":" +:+ zfill 2 (second t) +:+
  (if microsecond t =? 0 then "" else "." +:+ zfill 6 (microsecond t)).

(** [str(ObjectId)]: the identifier printed as a string. *)
Definition oid_str (n : N) : string := pretty n.

Section Str.
(** Python prints a float as the shortest decimal that reads back to the
    same binary64 number.  That depends on the binary representation,
    which the rational model of floats does not have, so the printer of
    floats is a parameter. *)
Variable float_repr : Q -> string.

Definition str (v : value) : string :=
  match v with
  | VNone => "None"
  | VInt z => pretty z
  | VFloat q => float_repr q
  | VStr s => s
  | VDate d => date_str d
  | VDatetime t => datetime_str t
  | VOid n => oid_str n
  end.
End Str.

(** *** [len] and slices of a [str] *)

(** A byte [10xxxxxx] continues the character begun before it. *)
Definition continuation (c : ascii) : bool :=
  match c with Ascii _ _ _ _ _ _ b6 b7 => b7 && negb b6 end.

(** [len(s)]: the number of characters. *)
Fixpoint len (s : string) : nat :=
  match s with
  | EmptyString => O
  | String c s' => if continuation c then len s' else S (len s')
  end.

(** [s[:n]]: the first [n] characters, each with all its bytes. *)
Fixpoint slice_to (n : nat) (s : string) : string :=
  match s with
  | EmptyString => EmptyString
  | String c s' =>
      if continuation c then String c (slice_to n s')
      else match n with
           | O => EmptyString
           | S n' => String c (slice_to n' s')
           end
  end.

(** *** [int] *)

Definition Qtrunc (q : Q) : Z := Z.quot (Qnum q) (Zpos (Qden q)).

(** White space and digits, of ASCII. *)
Definition is_space (c : ascii) : bool :=
  let n := N_of_ascii c in
  ((9 <=? n) && (n <=? 13) || (28 <=? n) && (n <=? 32))%N.

Definition digit_value (c : ascii) : option Z :=
  let n := Z.of_N (N_of_ascii c) in
  if (48 <=? n) && (n <=? 57) then Some (n - 48) else None.

Fixpoint lstrip (s : string) : string :=
  match s with
  | EmptyString => EmptyString
  | String c s' => if is_space c then lstrip s' else s
  end.

Fixpoint all_space (s : string) : bool :=
  match s with
  | EmptyString => true
  | String c s' => is_space c && all_space s'
  end.

(** What was read last in a run of digits. *)
Inductive seen := Nothing | Digit | Underscore.

(** Digits with single underscores between them, then white space to the
    end. *)
Fixpoint digits (acc : Z) (prev : seen) (s : string) : option Z :=
  match s with
  | EmptyString => match prev with Digit => Some acc | _ => None end
  | String c s' =>
      match digit_value c with
      | Some d => digits (10 * acc + d) Digit s'
      | None =>
          match prev with
          | Digit =>
              if Ascii.eqb c "_" then digits acc Underscore s'
              else if is_space c && all_space s' then Some acc
              else None
          | _ => None
          end
      end
  end.

(** [int(s)] on a string: the decimal integer literal it spells, with white
    space around it, an optional sign and single underscores between the
    digits; [None] where Python raises [ValueError].  The digits and white
    space read are those of ASCII. *)
Definition int_of_string (s : string) : option Z :=
  match lstrip s with
  | String "+" s' => digits 0 Nothing s'
  | String "-" s' => Z.opp <$> digits 0 Nothing s'
  | s' => digits 0 Nothing s'
  end.

(** [int(x)]: the identity on an [int], truncation towards zero on a float,
    the literal a string spells.  [None] where Python raises. *)
Definition int (v : value) : option Z :=
  match v with
  | VInt z => Some z
  | VFloat q => Some (Qtrunc q)
  | VStr s => int_of_string s
  | _ => None
  end.

End Py.

Import Py.

(** ** Effects: state and exceptions *)

(** A computation reads and updates a state [S] and either returns a value
    or raises; what it did to the state before raising stays done. *)
Definition M (S A : Type) : Type := S -> (exn + A) * S.

Global Instance M_ret {S} : MRet (M S) := λ A a s, (inr a, s).

Global Instance M_bind {S} : MBind (M S) := λ A B f m s,
  match m s with
  | (inr a, s') => f a s'
  | (inl e, s') => (inl e, s')
  end.

Definition raise {S A} (e : exn) : M S A := λ s, (inl e, s).

(** [try: body  except Exception as e: handler e] *)
Definition try_except {S A} (body : M S A) (handler : exn -> M S A) : M S A :=
  λ s, match body s with
       | (inr a, s') => (inr a, s')
       | (inl e, s') => handler e s'
       end.

Definition get_state {S} : M S S := λ s, (inr s, s).
Definition gets {S A} (f : S -> A) : M S A := λ s, (inr (f s), s).
Definition modify {S} (f : S -> S) : M S unit := λ s, (inr tt, f s).

(** ** [serialize_doc] *)

(** The function as a map from the input dictionary to the returned one. *)
Section SerializeDoc.
Variable float_repr : Q -> string.

Definition serialize_doc (doc : gmap string value) : gmap string value :=
  let d := doc in
  match d !! "_id" with
  | Some v => <["id" := VStr (str float_repr v)]> (delete "_id" d)
  | None => d
  end.
End SerializeDoc.

(** The same function statement by statement on a heap of dictionary
    objects, so that what it does to its argument can be stated. *)
Module Heap.

Abbreviation loc := positive.
Abbreviation heap := (gmap positive (gmap string value)).

(** [dict(doc)]: a new dictionary object with the items of [doc]. *)
Definition dict_copy (l : loc) : M heap loc := λ h,
  match h !! l with
  | Some d => let l' := fresh (dom h) in (inr l', <[l' := d]> h)
  | None => (inl (Exception "dangling reference"), h)
  end.

(** [k in d] *)
Definition dict_contains (l : loc) (k : string) : M heap bool := λ h,
  match h !! l with
  | Some d => (inr (bool_decide (is_Some (d !! k))), h)
  | None => (inl (Exception "dangling reference"), h)
  end.

(** [d.pop(k)] *)
Definition dict_pop (l : loc) (k : string) : M heap value := λ h,
  match h !! l with
  | Some d =>
      match d !! k with
      | Some v => (inr v, <[l := delete k d]> h)
      | None => (inl (Exception ("'" +:+ k +:+ "'")), h)
      end
  | None => (inl (Exception "dangling reference"), h)
  end.

(** [d[k] = v] *)
Definition dict_setitem (l : loc) (k : string) (v : value) : M heap unit := λ h,
  match h !! l with
  | Some d => (inr tt, <[l := <[k := v]> d]> h)
  | None => (inl (Exception "dangling reference"), h)
  end.

Section SerializeDoc.
Variable float_repr : Q -> string.

Definition serialize_doc (doc : loc) : M heap loc :=
  d ← dict_copy doc;
  has_id ← dict_contains d "_id";
  if (has_id : bool) then
    v ← dict_pop d "_id";
    _ ← dict_setitem d "id" (VStr (str float_repr v));
    mret d
  else mret d.
End SerializeDoc.

End Heap.

(** ** The document store ([database.py]) *)

Module Database.

(** *** Order and equality of stored values *)

(** Modelled from the spec: the order of stored values, which the inclusive
    bounds of a filter and the descending sort of an aggregation refer to.
    Values are ordered first by kind (null, numbers, strings, object
    identifiers, dates), then inside the kind; a calendar date is the
    instant at midnight of that day. *)
Definition bson_rank (v : value) : Z :=
  match v with
  | VNone => 1
  | VInt _ | VFloat _ => 2
  | VStr _ => 3
  | VOid _ => 7
  | VDate _ | VDatetime _ => 9
  end.

Definition lex (c : comparison) (rest : comparison) : comparison :=
  match c with Eq => rest | _ => c end.

Definition datetime_compare (a b : datetime) : comparison :=
  lex (date_compare (dt_date a) (dt_date b))
 (lex (hour a ?= hour b)
 (lex (minute a ?= minute b)
 (lex (second a ?= second b)
      (microsecond a ?= microsecond b)))).

Definition midnight (d : date) : datetime := Datetime d 0 0 0 0.

Definition number (v : value) : option Q :=
  match v with
  | VInt z => Some (inject_Z z)
  | VFloat q => Some q
  | _ => None
  end.

Definition instant (v : value) : option datetime :=
  match v with
  | VDate d => Some (midnight d)
  | VDatetime t => Some t
  | _ => None
  end.

Definition bson_compare (a b : value) : comparison :=
  lex (bson_rank a ?= bson_rank b)
    match a, b with
    | VStr s, VStr t => String.compare s t
    | VOid m, VOid n => (m ?= n)%N
    | _, _ =>
        match number a, number b with
        | Some p, Some q => Qcompare p q
        | _, _ =>
            match instant a, instant b with
            | Some t, Some u => datetime_compare t u
            | _, _ => Eq
            end
        end
    end.

Definition bson_eqb (a b : value) : bool :=
  match bson_compare a b with Eq => true | _ => false end.

(** *** Queries *)

(** A constraint on one field: a plain value (equality), or one of the
    operator dictionaries [{"$gte": lo}], [{"$lte": hi}] and
    [{"$gte": lo, "$lte": hi}]. *)
Inductive cond :=
  | Equals (v : value)
  | Gte (lo : value)
  | Lte (hi : value)
  | GteLte (lo hi : value).

Abbreviation query := (gmap string cond).

(** [$gte] and [$lte] compare only values of the kind of the bound. *)
Definition gte (x lo : value) : bool :=
  bool_decide (bson_rank x = bson_rank lo) &&
  match bson_compare x lo with Lt => false | _ => true end.

Definition lte (x hi : value) : bool :=
  bool_decide (bson_rank x = bson_rank hi) &&
  match bson_compare x hi with Gt => false | _ => true end.

(** Modelled from the spec: when a stored record satisfies a field
    constraint.  The bounds are inclusive; a missing field equals null and
    satisfies no comparison. *)
Definition cond_holds (c : cond) (field : option value) : bool :=
  match c with
  | Equals v => bson_eqb (default VNone field) v
  | Gte lo => from_option (λ x, gte x lo) false field
  | Lte hi => from_option (λ x, lte x hi) false field
  | GteLte lo hi => from_option (λ x, gte x lo && lte x hi) false field
  end.

Definition matches (q : gmap string cond) (d : gmap string value) : bool :=
  bool_decide (map_Forall (λ k c, cond_holds c (d !! k) = true) q).

(** *** Aggregation pipelines *)

Inductive projection :=
  | Include                (* [field: 1] *)
  | Exclude                (* [field: 0] *)
  | Field (path : string). (* [field: "$path"] *)

(** The stages [main.py] builds:
    [{"$match": q}],
    [{"$group": {"_id": "$key", out: {"$sum": "$summed"}}}],
    [{"$sort": {field: direction}}], [{"$limit": n}] and
    [{"$project": spec}]. *)
Inductive stage :=
  | Match (q : gmap string cond)
  | Group (key out summed : string)
  | Sort (field : string) (direction : Z)
  | Limit (n : Z)
  | Project (spec : gmap string projection).

(** Modelled from the spec: the sum of a group.  [$sum] adds the numbers it
    meets and skips everything else; the sum is an integer as long as every
    addend is. *)
Definition num_add (acc x : value) : value :=
  match acc, x with
  | VInt a, VInt b => VInt (a + b)
  | _, _ =>
      match number acc, number x with
      | Some p, Some q => VFloat (Qred (p + q))
      | _, _ => acc
      end
  end.

(** Modelled from the spec: grouping by a field, one group per value of the
    field, kept in the order the values first occur. *)
Fixpoint group_add (k x : value) (gs : list (value * value)) : list (value * value) :=
  match gs with
  | [] => [(k, num_add (VInt 0) x)]
  | (k', s) :: gs' =>
      if bson_eqb k' k then (k', num_add s x) :: gs'
      else (k', s) :: group_add k x gs'
  end.

Definition group_step (key summed : string) (gs : list (value * value))
    (d : gmap string value) : list (value * value) :=
  group_add (default VNone (d !! key)) (default VNone (d !! summed)) gs.

Definition group (key out summed : string) (docs : list (gmap string value))
    : list (gmap string value) :=
  map (λ g : value * value, {[ "_id" := g.1; out := g.2 ]})
      (fold_left (group_step key summed) docs []).

(** Modelled from the spec: the sorting stage, as a stable insertion sort;
    [before x y] says [x] may stand before [y]. *)
Fixpoint insert_sorted {A} (before : A -> A -> bool) (x : A) (l : list A) : list A :=
  match l with
  | [] => [x]
  | y :: l' => if before x y then x :: y :: l' else y :: insert_sorted before x l'
  end.

Definition sort_by {A} (before : A -> A -> bool) (l : list A) : list A :=
  foldr (insert_sorted before) [] l.

Definition sort_key (field : string) (d : gmap string value) : value :=
  default VNone (d !! field).

Definition descending (field : string) (x y : gmap string value) : bool :=
  match bson_compare (sort_key field x) (sort_key field y) with
  | Lt => false | _ => true end.

Definition ascending (field : string) (x y : gmap string value) : bool :=
  match bson_compare (sort_key field x) (sort_key field y) with
  | Gt => false | _ => true end.

(** Modelled from the spec: the projection of a group into a row.  [_id] is
    kept unless the projection mentions it. *)
Definition project (spec : gmap string projection) (d : gmap string value)
    : gmap string value :=
  map_imap (λ k p, match p with
                   | Include => d !! k
                   | Exclude => None
                   | Field path => d !! path
                   end) spec
  ∪ match spec !! "_id", d !! "_id" with
    | None, Some v => {[ "_id" := v ]}
    | _, _ => ∅
    end.

(** Modelled from the spec: what each stage does to the documents that
    reach it.  The store refuses a limit that is not positive and a sort
    direction other than 1 and -1. *)
Definition run_stage (s : stage) (docs : list (gmap string value))
    : exn + list (gmap string value) :=
  match s with
  | Match q => inr (List.filter (matches q) docs)
  | Group key out summed => inr (group key out summed docs)
  | Sort field direction =>
      if direction =? -1 then inr (sort_by (descending field) docs)
      else if direction =? 1 then inr (sort_by (ascending field) docs)
      else inl (Exception "$sort key ordering must be 1 (for ascending) or -1 (for descending)")
  | Limit n =>
      if 0 <? n then inr (take (Z.to_nat n) docs)
      else inl (Exception "the limit must be positive")
  | Project spec => inr (map (project spec) docs)
  end.

Fixpoint run_pipeline (pipeline : list stage) (docs : list (gmap string value))
    : exn + list (gmap string value) :=
  match pipeline with
  | [] => inr docs
  | s :: rest =>
      match run_stage s docs with
      | inr docs' => run_pipeline rest docs'
      | inl e => inl e
      end
  end.

End Database.

(** *** The connection handle and the adapter functions *)

Module Store.
Import Database.

(** Modelled from the spec: the database object behind the module-level
    handle [db] of [database.py].  It owns the named collections (each a
    sequence of documents in insertion order) and the counter identifiers
    are drawn from; [fault] is [Some msg] while the store is unreachable, and
    every operation then raises with that message. *)
Record database := {
  name : string;
  collections : gmap string (list (gmap string value));
  next_oid : N;
  fault : option string
}.

(** What a handler asks of the store, recorded in the order it happens. *)
Inductive store_call :=
  | CreateDocument (collection_name : string) (payload : gmap string value)
  | GetDocuments (collection_name : string) (filter : gmap string cond) (limit : Z)
  | Aggregate (collection_name : string) (pipeline : list stage).

(** The state a request runs in: the handle [db] ([None] when the
    connection was not set up), the clock, and the calls made so far. *)
Record world := {
  db : option database;
  now : datetime;
  calls : list store_call
}.

Definition collection (d : database) (collection_name : string)
    : list (gmap string value) :=
  default [] (collections d !! collection_name).

Definition record_call (c : store_call) : M world unit :=
  modify (λ w, {| db := db w; now := now w; calls := (calls w ++ [c])%list |}).

(** The live database, or the exception an operation on it raises. *)
Definition connect : M world database := λ w,
  match db w with
  | None => (inl (Exception "Database not available"), w)
  | Some d =>
      match fault d with
      | Some msg => (inl (Exception msg), w)
      | None => (inr d, w)
      end
  end.

Definition insert_one (collection_name : string) (stored : gmap string value)
    (d : database) : database :=
  {| name := name d;
     collections :=
       <[collection_name := (collection d collection_name ++ [stored])%list]> (collections d);
     next_oid := N.succ (next_oid d);
     fault := fault d |}.

(** Modelled from the spec: [create_document(collection_name, payload)] of
    [database.py].  It inserts the payload, with the store-assigned
    identifier and timestamps, into the named collection and returns the
    new identifier as a string. *)
Definition create_document (collection_name : string) (payload : gmap string value)
    : M world string :=
  _ ← record_call (CreateDocument collection_name payload);
  d ← connect;
  t ← gets now;
  let oid := next_oid d in
  let stored :=
    <["_id" := VOid oid]>
      (<["updated_at" := VDatetime t]> (<["created_at" := VDatetime t]> payload)) in
  _ ← modify (λ w, {| db := Some (insert_one collection_name stored d);
                      now := now w; calls := calls w |});
  mret (oid_str oid).

(** Modelled from the spec: [get_documents(collection_name, filter, limit)]
    of [database.py].  It returns the stored records that satisfy the
    filter, in the order of the store, at most [limit] of them. *)
Definition get_documents (collection_name : string) (filter : gmap string cond)
    (limit : Z) : M world (list (gmap string value)) :=
  _ ← record_call (GetDocuments collection_name filter limit);
  d ← connect;
  mret (take (Z.to_nat limit) (List.filter (matches filter) (collection d collection_name))).

(** Modelled from the spec: [db[collection_name].aggregate(pipeline)], the
    aggregation of the store, as the stages of the specification: filter,
    group and sum, sort, truncate, project. *)
Definition aggregate (collection_name : string) (pipeline : list stage)
    : M world (list (gmap string value)) :=
  _ ← record_call (Aggregate collection_name pipeline);
  d ← connect;
  match run_pipeline pipeline (collection d collection_name) with
  | inr docs => mret docs
  | inl e => raise e
  end.

End Store.

(** ** Request schemas ([schemas.py]) *)

Module Schemas.

(** Modelled from the spec: the [StepLog] schema of [schemas.py], a user
    identifier, a step count, a calendar date and an optional note. *)
Record StepLog := {
  user : string;
  steps : Z;
  date : Py.date;
  note : option string
}.


(** [model_dump()] *)
Definition StepLog_dump (log : StepLog) : gmap string value :=
  {[ "user" := VStr (user log);
     "steps" := VInt (steps log);
     "date" := VDate (date log);
     "note" := from_option VStr VNone (note log) ]}.

(** Modelled from the spec: the [User] schema of [schemas.py], an opaque
    validated payload. *)
Record User := { fields : gmap string value }.

Definition User_dump (u : User) : gmap string value := fields u.

End Schemas.

(** ** The API layer ([main.py]) *)

(** [str(e)] *)
Definition exn_str (e : exn) : string :=
  match e with
  | Exception msg => msg
  | HTTPException status_code detail => pretty status_code +:+ ": " +:+ detail
  end.

Definition lift {S A} (r : exn + A) : M S A := λ s, (r, s).

(** *** [GET /test] *)

Module Diagnostics.

(** The response dictionary of [test_database], one field per key. *)
Record payload := {
  backend : string;
  database : string;
  database_url : option string;
  database_name : option string;
  connection_status : string;
  collections : list string
}.

Definition set_database (x : string) : M payload unit :=
  modify (λ r, {| backend := backend r; database := x;
                  database_url := database_url r; database_name := database_name r;
                  connection_status := connection_status r;
                  collections := collections r |}).

Definition set_database_url (x : option string) : M payload unit :=
  modify (λ r, {| backend := backend r; database := database r;
                  database_url := x; database_name := database_name r;
                  connection_status := connection_status r;
                  collections := collections r |}).

Definition set_database_name (x : option string) : M payload unit :=
  modify (λ r, {| backend := backend r; database := database r;
                  database_url := database_url r; database_name := x;
                  connection_status := connection_status r;
                  collections := collections r |}).

Definition set_connection_status (x : string) : M payload unit :=
  modify (λ r, {| backend := backend r; database := database r;
                  database_url := database_url r; database_name := database_name r;
                  connection_status := x;
                  collections := collections r |}).

Definition set_collections (x : list string) : M payload unit :=
  modify (λ r, {| backend := backend r; database := database r;
                  database_url := database_url r; database_name := database_name r;
                  connection_status := connection_status r;
                  collections := x |}).

(** What [test_database] observes of the handle: the outcome of
    [hasattr(db, 'name')], of reading [db.name] and of calling
    [db.list_collection_names()], each of which may raise. *)
Record handle := {
  hasattr_name : exn + bool;
  get_name : exn + string;
  list_collection_names : exn + list string
}.

(** [s[:50]] *)
Definition first50 (s : string) : string := slice_to 50 s.

Definition test_database (db : option handle) (getenv : string -> option string)
    : exn + payload :=
  let response :=
    {| backend := "✅ Running";
       database := "❌ Not Available";
       database_url := None;
       database_name := None;
       connection_status := "Not Connected";
       collections := [] |} in
  let truthy (x : option string) := match x with Some s => negb (String.eqb s "") | None => false end in
  let body : M payload unit :=
    _ ← try_except
          (match db with
           | Some h =>
               _ ← set_database "✅ Available";
               _ ← set_database_url (Some "✅ Configured");
               has ← lift (hasattr_name h);
               n ← (if (has : bool) then lift (get_name h) else mret "✅ Connected");
               _ ← set_database_name (Some n);
               _ ← set_connection_status "Connected";
               try_except
                 (collections ← lift (list_collection_names h);
                  _ ← set_collections (take 10 collections);
                  set_database "✅ Connected & Working")
                 (λ e, set_database ("⚠️  Connected but Error: " +:+ first50 (exn_str e)))
           | None => set_database "⚠️  Available but not initialized"
           end)
          (λ e, set_database ("❌ Error: " +:+ first50 (exn_str e)));
    _ ← set_database_url
          (Some (if truthy (getenv "DATABASE_URL") then "✅ Set" else "❌ Not Set"));
    set_database_name
      (Some (if truthy (getenv "DATABASE_NAME") then "✅ Set" else "❌ Not Set")) in
  match body response with
  | (inr _, response) => inr response
  | (inl e, _) => inl e
  end.

(** The view of a database of the store: it has a [name], and listing the
    collections fails exactly when the store is unreachable. *)
Definition handle_of (d : Store.database) : handle :=
  {| hasattr_name := inr true;
     get_name := inr (Store.name d);
     list_collection_names :=
       match Store.fault d with
       | Some msg => inl (Exception msg)
       | None => inr (map fst (map_to_list (Store.collections d)))
       end |}.

End Diagnostics.

(** *** The data endpoints *)

Module Main.
Import Database Store.

Record LeaderboardRow := { user : string; total_steps : Z }.

(** The fields of the response model [StepEntryOut]. *)
Definition StepEntryOut_fields : list string :=
  ["id"; "user"; "steps"; "date"; "note"; "created_at"; "updated_at"].

Definition not_configured : exn := HTTPException 500 "Database not configured".

(** [POST /api/steps] *)
Definition add_steps (log : Schemas.StepLog) : M world (gmap string value) :=
  handle ← gets db;
  match handle with
  | None => raise not_configured
  | Some _ =>
      inserted_id ← create_document "steplog" (Schemas.StepLog_dump log);
      mret {[ "id" := VStr inserted_id ]}
  end.

(** [POST /api/users] *)
Definition create_user (user : Schemas.User) : M world (gmap string value) :=
  handle ← gets db;
  match handle with
  | None => raise not_configured
  | Some _ =>
      inserted_id ← create_document "user" (Schemas.User_dump user);
      mret {[ "id" := VStr inserted_id ]}
  end.

(** The [query] dictionary [list_steps] builds.  An absent query parameter
    is [None]; a string is true when it is not empty, a date always. *)
Definition list_steps_query (user : option string) (start_date end_date : option date)
    : gmap string cond :=
  let query : gmap string cond := ∅ in
  let query :=
    match user with
    | Some u => if negb (String.eqb u "") then <["user" := Equals (VStr u)]> query
                else query
    | None => query
    end in
  match start_date, end_date with
  | Some s, Some e => <["date" := GteLte (VDate s) (VDate e)]> query
  | Some s, None => <["date" := Gte (VDate s)]> query
  | None, Some e => <["date" := Lte (VDate e)]> query
  | None, None => query
  end.

Section ListSteps.
Variable float_repr : Q -> string.

(** [GET /api/steps]; [limit] is 50 when the request leaves it out. *)
Definition list_steps (user : option string) (start_date end_date : option date)
    (limit : option Z) : M world (list (gmap string value)) :=
  let limit := default 50 limit in
  handle ← gets db;
  match handle with
  | None => raise not_configured
  | Some _ =>
      let query := list_steps_query user start_date end_date in
      docs ← get_documents "steplog" query limit;
      mret (map (serialize_doc float_repr) docs)
  end.
End ListSteps.

(** [LeaderboardRow(user=r["user"], total_steps=int(r["total_steps"]))]:
    a missing key, a total that is no number and a user that is no string
    raise. *)
Definition leaderboard_row (r : gmap string value) : exn + LeaderboardRow :=
  match r !! "user" with
  | None => inl (Exception "'user'")
  | Some u =>
      match r !! "total_steps" with
      | None => inl (Exception "'total_steps'")
      | Some t =>
          match int t with
          | None => inl (Exception "int() argument must be a string, a bytes-like object or a real number")
          | Some n =>
              match u with
              | VStr s => inr {| user := s; total_steps := n |}
              | _ => inl (Exception "1 validation error for LeaderboardRow")
              end
          end
      end
  end.

(** A list comprehension whose element expression may raise. *)
Fixpoint comprehension {A B} (f : A -> exn + B) (l : list A) : exn + list B :=
  match l with
  | [] => inr []
  | x :: l' =>
      match f x with
      | inl e => inl e
      | inr y =>
          match comprehension f l' with
          | inl e => inl e
          | inr ys => inr (y :: ys)
          end
      end
  end.

(** The [match] dictionary of [leaderboard]. *)
Definition leaderboard_match (start_date end_date : option date) : gmap string cond :=
  let match_ : gmap string cond := ∅ in
  match start_date, end_date with
  | Some s, Some e => <["date" := GteLte (VDate s) (VDate e)]> match_
  | Some s, None => <["date" := Gte (VDate s)]> match_
  | None, Some e => <["date" := Lte (VDate e)]> match_
  | None, None => match_
  end.

(** [{"user": "$_id", "total_steps": 1, "_id": 0}] *)
Definition leaderboard_projection : gmap string projection :=
  {[ "user" := Field "_id"; "total_steps" := Include; "_id" := Exclude ]}.

(** The stages after the optional [$match]. *)
Definition leaderboard_stages (limit : Z) : list stage :=
  [ Group "user" "total_steps" "steps";
    Sort "total_steps" (-1);
    Limit limit;
    Project leaderboard_projection ].

Definition leaderboard_pipeline (start_date end_date : option date) (limit : Z)
    : list stage :=
  let match_ := leaderboard_match start_date end_date in
  let pipeline : list stage := [] in
  let pipeline :=
    if bool_decide (match_ ≠ ∅) then (pipeline ++ [Match match_])%list else pipeline in
  (pipeline ++ leaderboard_stages limit)%list.

(** [GET /api/leaderboard]; [limit] is 10 when the request leaves it out. *)
Definition leaderboard (start_date end_date : option date) (limit : option Z)
    : M world (list LeaderboardRow) :=
  let limit := default 10 limit in
  handle ← gets db;
  match handle with
  | None => raise not_configured
  | Some _ =>
      let pipeline := leaderboard_pipeline start_date end_date limit in
      results ← aggregate "steplog" pipeline;
      lift (comprehension leaderboard_row results)
  end.

End Main.

(** ** The specification's side *)

Module Spec.
Import Database Store Main.

(** The date constraint in the words of the specification: both bounds
    given, an inclusive range; one bound given, a one-sided inclusive bound;
    none, no constraint. *)
Definition date_filter (start_date end_date : option date) : option cond :=
  match start_date, end_date with
  | Some s, Some e => Some (GteLte (VDate s) (VDate e))
  | Some s, None => Some (Gte (VDate s))
  | None, Some e => Some (Lte (VDate e))
  | None, None => None
  end.

(** A date lies within the bounds that are given, ends included. *)
Definition within (start_date end_date : option date) (x : date) : bool :=
  from_option (λ s, date_le s x) true start_date &&
  from_option (λ e, date_le x e) true end_date.

(** The user constraint of a listing: none for an absent or empty
    parameter. *)
Definition user_selected (user : option string) (d : gmap string value) : bool :=
  match user with
  | Some u => if negb (String.eqb u "") then cond_holds (Equals (VStr u)) (d !! "user")
              else true
  | None => true
  end.

(** A stored step-log entry: a user that is a string, a step count that is
    an integer and a date. *)
Definition is_entry (d : gmap string value) : bool :=
  match d !! "user", d !! "steps", d !! "date" with
  | Some (VStr _), Some (VInt _), Some (VDate _) => true
  | _, _, _ => false
  end.

Definition user_of (d : gmap string value) : string :=
  match d !! "user" with Some (VStr u) => u | _ => "" end.

Definition steps_of (d : gmap string value) : Z :=
  match d !! "steps" with Some (VInt n) => n | _ => 0 end.

Definition in_bounds (start_date end_date : option date) (d : gmap string value) : bool :=
  match d !! "date" with
  | Some (VDate x) => within start_date end_date x
  | _ => false
  end.

Definition by_user (u : string) (d : gmap string value) : bool :=
  String.eqb (user_of d) u.

(** The entries within the bounds. *)
Definition selected (start_date end_date : option date)
    (docs : list (gmap string value)) : list (gmap string value) :=
  List.filter (in_bounds start_date end_date) docs.

(** The arithmetic sum of the steps of the entries of a user. *)
Definition sum_steps (docs : list (gmap string value)) : Z :=
  foldr (λ d acc, steps_of d + acc) 0 docs.

Definition user_total (u : string) (docs : list (gmap string value)) : Z :=
  sum_steps (List.filter (by_user u) docs).

(** The users that have an entry, each once. *)
Definition users (docs : list (gmap string value)) : list string :=
  nodup String.string_dec (map user_of docs).

(** The grouping stage on entries, as a tally of integers per user. *)
Fixpoint tally_add (u : string) (n : Z) (t : list (string * Z)) : list (string * Z) :=
  match t with
  | [] => [(u, 0 + n)]
  | (u', m) :: t' =>
      if String.eqb u' u then (u', m + n) :: t'
      else (u', m) :: tally_add u n t'
  end.

Definition tally_step (t : list (string * Z)) (d : gmap string value)
    : list (string * Z) :=
  tally_add (user_of d) (steps_of d) t.

Definition tally (docs : list (gmap string value)) : list (string * Z) :=
  fold_left tally_step docs [].

Fixpoint tally_get (u : string) (t : list (string * Z)) : option Z :=
  match t with
  | [] => None
  | (u', m) :: t' => if String.eqb u' u then Some m else tally_get u t'
  end.

Definition group_of (p : string * Z) : value * value := (VStr p.1, VInt p.2).

Definition group_doc (g : value * value) : gmap string value :=
  {[ "_id" := g.1; "total_steps" := g.2 ]}.

Definition row_of (p : string * Z) : LeaderboardRow :=
  {| user := p.1; total_steps := p.2 |}.

(** The order of the sorting stage on the groups of a tally. *)
Definition richer (p q : string * Z) : bool :=
  descending "total_steps" (group_doc (group_of p)) (group_doc (group_of q)).

End Spec.

(** ** A sequence of requests *)

Module Server.
Import Database Store Main.

Inductive request :=
  | PostSteps (log : Schemas.StepLog)
  | PostUsers (user : Schemas.User)
  | GetSteps (user : option string) (start_date end_date : option date)
      (limit : option Z)
  | GetLeaderboard (start_date end_date : option date) (limit : option Z).

(** The identifier a create response carries. *)
Definition issued (response : exn + gmap string value) : list string :=
  match response with
  | inr body => match body !! "id" with Some (VStr i) => [i] | _ => [] end
  | inl _ => []
  end.

Section Serve.
Variable float_repr : Q -> string.

(** One request: the identifiers it issued and the world it leaves. *)
Definition serve (r : request) (w : world) : list string * world :=
  match r with
  | PostSteps log => (issued (add_steps log w).1, (add_steps log w).2)
  | PostUsers user => (issued (create_user user w).1, (create_user user w).2)
  | GetSteps user start_date end_date limit =>
      ([], (list_steps float_repr user start_date end_date limit w).2)
  | GetLeaderboard start_date end_date limit =>
      ([], (leaderboard start_date end_date limit w).2)
  end.

Fixpoint serve_all (rs : list request) (w : world) : list string * world :=
  match rs with
  | [] => ([], w)
  | r :: rs' =>
      let now_ := serve r w in
      let later := serve_all rs' now_.2 in
      ((now_.1 ++ later.1)%list, later.2)
  end.
End Serve.

(** The next identifier of the store, 0 without a store. *)
Definition counter (w : world) : N := from_option next_oid 0%N (db w).

End Server.

(** ** What the step-log collection holds *)

Module Invariant.
Import Database Store Main.

(** A step-log entry with an identifier drawn below [bound]. *)
Definition entry_stored (bound : N) (d : gmap string value) : Prop :=
  Spec.is_entry d = true ∧ ∃ n, d !! "_id" = Some (VOid n) ∧ (n < bound)%N.

(** Every document of the step-log collection is such an entry, and no two
    have the same identifier. *)
Definition steplog_ok (d : database) : Prop :=
  List.Forall (entry_stored (next_oid d)) (collection d "steplog") ∧
  List.NoDup (map (λ doc : gmap string value, doc !! "_id") (collection d "steplog")).

Definition store_ok (w : world) : Prop := from_option steplog_ok True (db w).

End Invariant.

(** ** Sample states *)

Module Sample.
Import Database Store Main.

Definition noon : datetime := Datetime (Date 2024 1 5) 12 0 0 0.

Definition empty_db : database :=
  {| name := "steps"; collections := ∅; next_oid := 0; fault := None |}.

Definition empty_world : world :=
  {| db := Some empty_db; now := noon; calls := [] |}.

Definition alice_day1 : Schemas.StepLog :=
  {| Schemas.user := "alice"; Schemas.steps := 5000;
     Schemas.date := Date 2024 1 1; Schemas.note := None |}.

Definition alice_day2 : Schemas.StepLog :=
  {| Schemas.user := "alice"; Schemas.steps := 3000;
     Schemas.date := Date 2024 1 2; Schemas.note := Some "evening walk" |}.

Definition bob_day3 : Schemas.StepLog :=
  {| Schemas.user := "bob"; Schemas.steps := 9000;
     Schemas.date := Date 2024 1 3; Schemas.note := None |}.

(** The world after the three submissions, in this order. *)
Definition three_logs : world :=
  (add_steps bob_day3 (add_steps alice_day2 (add_steps alice_day1 empty_world).2).2).2.

Definition three_logs_db : database := default empty_db (db three_logs).

(** The same three submissions as requests, and the identifiers they
    were given. *)
Definition three_posts : list Server.request :=
  [ Server.PostSteps alice_day1; Server.PostSteps alice_day2; Server.PostSteps bob_day3 ].


(** The same three submissions received a month later. *)
Definition three_logs_later : world :=
  (add_steps bob_day3
     (add_steps alice_day2
        (add_steps alice_day1
           {| db := Some empty_db; now := Datetime (Date 2024 2 5) 8 30 0 0;
              calls := [] |}).2).2).2.

Definition three_logs_later_db : database := default empty_db (db three_logs_later).



(** The three submissions stored in the opposite order. *)
Definition three_logs_reversed : world :=
  {| db := Some {| name := "steps";
                   collections :=
                     {[ "steplog" := rev (collection three_logs_db "steplog") ]};
                   next_oid := 3; fault := None |};
     now := noon; calls := [] |}.



(** A store in which a step count was written as a float. *)
Definition float_steps : world :=
  {| db := Some
       {| name := "steps";
          collections :=
            {[ "steplog" :=
                 [ {[ "_id" := VOid 0; "user" := VStr "alice";
                      "steps" := VFloat (5 # 2); "date" := VDate (Date 2024 1 1) ]};
                   {[ "_id" := VOid 1; "user" := VStr "alice";
                      "steps" := VInt 1; "date" := VDate (Date 2024 1 2) ]} ] ]};
          next_oid := 2; fault := None |};
     now := noon; calls := [] |}.

End Sample.

(** * Properties *)

Import Database Store Main.

Ltac unfold_M :=
  unfold mbind, M_bind, mret, M_ret, gets, get_state, raise, modify, lift,
    try_except, record_call, connect in *.

(** ** Evaluation on samples *)

Example str_date : date_str (Date 2024 1 2) = "2024-01-02".
Proof. vm_compute. reflexivity. Qed.

Example str_int : str (fun _ => "") (VInt (-42)) = "-42".
Proof. vm_compute. reflexivity. Qed.

Example int_float : int (VFloat (7 # 2)) = Some 3 /\ int (VFloat (-7 # 2)) = Some (-3).
Proof. split; reflexivity. Qed.

Example int_string :
  int (VStr "12") = Some 12 /\ int (VStr " -1_000 ") = Some (-1000) /\
  int (VStr "1__0") = None /\ int (VStr "") = None.
Proof. repeat split; vm_compute; reflexivity. Qed.

Example first50_keeps_characters :
  len "éééééééééééééééééééééééééééééé" = 30%nat /\
  Diagnostics.first50 "éééééééééééééééééééééééééééééé"
  = "éééééééééééééééééééééééééééééé".
Proof. split; vm_compute; reflexivity. Qed.

Example serialize_doc_ex :
  serialize_doc (fun _ => "") {[ "_id" := VOid 7; "user" := VStr "alice" ]}
  = {[ "id" := VStr "7"; "user" := VStr "alice" ]}.
Proof. vm_compute. reflexivity. Qed.

Example serialize_doc_heap_ex :
  Heap.serialize_doc (fun _ => "") 1%positive
    {[ 1%positive := {[ "_id" := VOid 7; "user" := VStr "alice" ]} ]}
  = (inr 2%positive,
     {[ 1%positive := {[ "_id" := VOid 7; "user" := VStr "alice" ]};
        2%positive := {[ "id" := VStr "7"; "user" := VStr "alice" ]} ]}).
Proof. vm_compute. reflexivity. Qed.

(** The examples of the specification: two entries of a user within the
    bounds add up, and listing a user without entries gives an empty
    sequence, not an error. *)
Example leaderboard_alice :
  (leaderboard (Some (Date 2024 1 1)) (Some (Date 2024 1 2)) None Sample.three_logs).1
  = inr [ {| user := "alice"; total_steps := 8000 |} ].
Proof. vm_compute. reflexivity. Qed.

Example list_steps_unknown_user :
  (list_steps (λ _, "") (Some "bob") None None None Sample.empty_world).1 = inr [].
Proof. vm_compute. reflexivity. Qed.

(** ** Configuration errors *)

(** C3: when the store handle is absent, each of the four data endpoints
    (create step log, list step logs, leaderboard, create user) raises the
    same [HTTPException] with status 500 and the detail
    "Database not configured", and leaves the world as it was: no call to
    the store is recorded and nothing is returned. *)
Theorem not_configured_everywhere (float_repr : Q -> string) (w : world)
    (log : Schemas.StepLog) (u : Schemas.User) (user : option string)
    (start_date end_date : option date) (limit : option Z) :
  db w = None ->
  add_steps log w = (inl (HTTPException 500 "Database not configured"), w) ∧
  list_steps float_repr user start_date end_date limit w
    = (inl (HTTPException 500 "Database not configured"), w) ∧
  leaderboard start_date end_date limit w
    = (inl (HTTPException 500 "Database not configured"), w) ∧
  create_user u w = (inl (HTTPException 500 "Database not configured"), w).
Proof.
  intros Hdb.
  unfold add_steps, list_steps, leaderboard, create_user, not_configured.
  unfold_M. rewrite Hdb. auto.
Qed.

Lemma not_configured_everywhere_witness :
  let w := {| db := None; now := Datetime (Date 2024 1 1) 0 0 0 0; calls := [] |} in
  add_steps {| Schemas.user := "alice"; Schemas.steps := 1;
               Schemas.date := Date 2024 1 1; Schemas.note := None |} w
  = (inl (HTTPException 500 "Database not configured"), w).
Proof.
  intros w.
  exact (proj1 (not_configured_everywhere (λ _, "") w _ {| Schemas.fields := ∅ |}
                  None None None None eq_refl)).
Defined.

(** ** The user filter *)

(** C8: a [user] parameter that is the empty string puts no constraint on
    the user in the query: the query built is the one built without the
    parameter, it has no entry for the user field, and the whole request
    gives the same result and makes the same call to the store. *)
Theorem empty_user_is_no_filter (float_repr : Q -> string)
    (start_date end_date : option date) (limit : option Z) (w : world) :
  list_steps_query (Some "") start_date end_date
    = list_steps_query None start_date end_date ∧
  list_steps_query (Some "") start_date end_date !! "user" = None ∧
  list_steps float_repr (Some "") start_date end_date limit w
    = list_steps float_repr None start_date end_date limit w.
Proof.
  split; [reflexivity|]. split; [|reflexivity].
  unfold list_steps_query; simpl.
  destruct start_date, end_date; simpl;
    rewrite ?lookup_insert_ne by discriminate; apply lookup_empty.
Qed.

(** ** Diagnostics *)





(** ** Reshaping documents *)

Lemma serialize_doc_lookup_other (float_repr : Q -> string) (d : gmap string value)
    (k : string) :
  k ≠ "_id" -> k ≠ "id" -> serialize_doc float_repr d !! k = d !! k.
Proof.
  intros H1 H2. unfold serialize_doc.
  destruct (d !! "_id"); [|done].
  rewrite lookup_insert_ne by done. by rewrite lookup_delete_ne.
Qed.

Lemma serialize_doc_lookup_id (float_repr : Q -> string) (d : gmap string value)
    (v : value) :
  d !! "_id" = Some v ->
  serialize_doc float_repr d !! "id" = Some (VStr (str float_repr v)) ∧
  serialize_doc float_repr d !! "_id" = None.
Proof.
  intros H. unfold serialize_doc. rewrite H. split.
  - apply lookup_insert_eq.
  - rewrite lookup_insert_ne by done. apply lookup_delete_eq.
Qed.

Lemma serialize_doc_no_internal_id (float_repr : Q -> string) (d : gmap string value) :
  serialize_doc float_repr d !! "_id" = None.
Proof.
  destruct (d !! "_id") as [v|] eqn:H.
  - by apply (serialize_doc_lookup_id float_repr d v).
  - unfold serialize_doc. by rewrite H.
Qed.

(** The heap version computes [serialize_doc] into a new object. *)
Lemma heap_serialize_doc_run (float_repr : Q -> string)
    (h : gmap positive (gmap string value)) (l : positive) (d : gmap string value) :
  h !! l = Some d ->
  Heap.serialize_doc float_repr l h
  = (inr (fresh (dom h)), <[fresh (dom h) := serialize_doc float_repr d]> h).
Proof.
  intros Hl. unfold Heap.serialize_doc, Heap.dict_copy, Heap.dict_contains,
    Heap.dict_pop, Heap.dict_setitem, serialize_doc.
  unfold_M. rewrite Hl. simpl. rewrite lookup_insert_eq.
  destruct (d !! "_id") as [v|] eqn:Hid.
  - rewrite bool_decide_eq_true_2 by eauto.
    rewrite lookup_insert_eq, Hid, lookup_insert_eq.
    by rewrite !insert_insert_eq.
  - rewrite bool_decide_eq_false_2; [done|]. by intros [? ?].
Qed.

(** C9 (amended): [serialize_doc] leaves its argument as it was and returns
    a new dictionary object.  Every field of the input other than [_id] and
    [id] is in the output with the same value; an [_id] is removed and its
    string form stored under [id], replacing an [id] field the input may
    have had; an input without [_id] is returned as an equal copy. *)
Theorem serialize_doc_copies (float_repr : Q -> string)
    (h : gmap positive (gmap string value)) (l : positive) (d : gmap string value) :
  h !! l = Some d ->
  ∃ l' h', Heap.serialize_doc float_repr l h = (inr l', h') ∧
    h !! l' = None ∧
    (∀ l0, is_Some (h !! l0) -> h' !! l0 = h !! l0) ∧
    h' !! l' = Some (serialize_doc float_repr d) ∧
    (∀ k, k ≠ "_id" -> k ≠ "id" -> serialize_doc float_repr d !! k = d !! k) ∧
    (∀ v, d !! "_id" = Some v ->
       serialize_doc float_repr d !! "id" = Some (VStr (str float_repr v)) ∧
       serialize_doc float_repr d !! "_id" = None) ∧
    (d !! "_id" = None -> serialize_doc float_repr d = d).
Proof.
  intros Hl. eexists _, _. split; [by apply heap_serialize_doc_run|].
  assert (Hfresh : h !! fresh (dom h) = None)
    by (apply not_elem_of_dom, is_fresh).
  split; [done|]. split.
  { intros l0 [x Hx]. rewrite lookup_insert_ne; [done|]. congruence. }
  split; [apply lookup_insert_eq|]. split.
  { intros; by apply serialize_doc_lookup_other. } split.
  { intros; by apply serialize_doc_lookup_id. }
  intros Hid. unfold serialize_doc. by rewrite Hid.
Qed.

Lemma serialize_doc_copies_witness :
  ∃ l' h',
    Heap.serialize_doc (λ _, "") 1%positive
      {[ 1%positive := {[ "_id" := VOid 7; "user" := VStr "alice" ]} ]} = (inr l', h') ∧
    h' !! 1%positive = Some {[ "_id" := VOid 7; "user" := VStr "alice" ]}.
Proof.
  destruct (serialize_doc_copies (λ _, "")
              {[ 1%positive := {[ "_id" := VOid 7; "user" := VStr "alice" ]} ]}
              1%positive {[ "_id" := VOid 7; "user" := VStr "alice" ]}
              (lookup_singleton_eq _ _))
    as (l' & h' & Hrun & _ & Hkeep & _).
  exists l', h'. split; [exact Hrun|].
  rewrite Hkeep; [apply lookup_singleton_eq|].
  eexists; apply lookup_singleton_eq.
Defined.

(** C9, as stated, fails on an input that has an [id] field of its own:
    with an [_id] the field is overwritten, and without one the output,
    equal to the input, does contain an [id] field. *)
Lemma serialize_doc_overwrites_id :
  let d : gmap string value := {[ "_id" := VOid 7; "id" := VStr "mine" ]} in
  let d' : gmap string value := {[ "id" := VStr "mine" ]} in
  d !! "id" = Some (VStr "mine") ∧
  (∀ float_repr, serialize_doc float_repr d !! "id" = Some (VStr "7")) ∧
  d' !! "_id" = None ∧
  (∀ float_repr, serialize_doc float_repr d' !! "id" = Some (VStr "mine")).
Proof.
  repeat split; intros; vm_compute; reflexivity.
Qed.

(** ** Date bounds *)

Lemma date_compare_antisym (a b : date) :
  date_compare b a = CompOpp (date_compare a b).
Proof.
  unfold date_compare.
  rewrite (Z.compare_antisym (year a)), (Z.compare_antisym (month a)),
    (Z.compare_antisym (day a)).
  destruct (year a ?= year b), (month a ?= month b), (day a ?= day b); reflexivity.
Qed.

Lemma date_compare_refl (a : date) : date_compare a a = Eq.
Proof. unfold date_compare. by rewrite !Z.compare_refl. Qed.

Lemma date_le_refl (a : date) : date_le a a = true.
Proof. unfold date_le. by rewrite date_compare_refl. Qed.

Lemma bson_compare_dates (x y : date) :
  bson_compare (VDate x) (VDate y) = date_compare x y.
Proof.
  unfold bson_compare, datetime_compare; simpl.
  destruct (date_compare x y); reflexivity.
Qed.

Lemma gte_dates (x s : date) : gte (VDate x) (VDate s) = date_le s x.
Proof.
  unfold gte, date_le. rewrite bson_compare_dates, (date_compare_antisym x s).
  simpl. destruct (date_compare x s); reflexivity.
Qed.

Lemma lte_dates (x e : date) : lte (VDate x) (VDate e) = date_le x e.
Proof. unfold lte, date_le. by rewrite bson_compare_dates. Qed.

Lemma matches_empty (d : gmap string value) : matches ∅ d = true.
Proof. apply bool_decide_eq_true_2, map_Forall_empty. Qed.

Lemma matches_insert (q : gmap string cond) (k : string) (c : cond)
    (d : gmap string value) :
  q !! k = None ->
  matches (<[k := c]> q) d = cond_holds c (d !! k) && matches q d.
Proof.
  intros Hk. apply eq_true_iff_eq. unfold matches.
  rewrite andb_true_iff, !bool_decide_eq_true.
  by rewrite map_Forall_insert.
Qed.

Lemma date_filter_holds (start_date end_date : option date) (x : date) :
  from_option (λ c, cond_holds c (Some (VDate x))) true
    (Spec.date_filter start_date end_date)
  = Spec.within start_date end_date x.
Proof.
  unfold Spec.within.
  destruct start_date, end_date; simpl;
    rewrite ?gte_dates, ?lte_dates, ?andb_true_r; reflexivity.
Qed.

Lemma leaderboard_match_lookup (start_date end_date : option date) :
  leaderboard_match start_date end_date !! "date"
  = Spec.date_filter start_date end_date.
Proof.
  unfold leaderboard_match.
  destruct start_date, end_date; simpl; by rewrite ?lookup_insert_eq.
Qed.

Lemma list_steps_query_lookup (user : option string)
    (start_date end_date : option date) :
  list_steps_query user start_date end_date !! "date"
  = Spec.date_filter start_date end_date.
Proof.
  unfold list_steps_query.
  destruct start_date, end_date; simpl; rewrite ?lookup_insert_eq; try done;
    destruct user as [u|]; try done;
    destruct (negb (String.eqb u "")); by rewrite ?lookup_insert_ne.
Qed.

Lemma leaderboard_match_matches (start_date end_date : option date)
    (d : gmap string value) (x : date) :
  d !! "date" = Some (VDate x) ->
  matches (leaderboard_match start_date end_date) d
  = Spec.within start_date end_date x.
Proof.
  intros Hd. rewrite <- date_filter_holds. unfold leaderboard_match.
  destruct start_date, end_date; simpl;
    rewrite ?matches_insert, ?matches_empty, ?Hd, ?andb_true_r by done;
    reflexivity.
Qed.

Lemma list_steps_query_matches (user : option string)
    (start_date end_date : option date) (d : gmap string value) (x : date) :
  d !! "date" = Some (VDate x) ->
  matches (list_steps_query user start_date end_date) d
  = Spec.user_selected user d && Spec.within start_date end_date x.
Proof.
  intros Hd. rewrite <- date_filter_holds. unfold list_steps_query, Spec.user_selected.
  assert (Hu : ∀ u, matches (<["user" := Equals (VStr u)]> ∅) d
                    = cond_holds (Equals (VStr u)) (d !! "user")).
  { intros u. by rewrite matches_insert, matches_empty, andb_true_r. }
  destruct user as [u|]; [destruct (negb (String.eqb u ""))|];
    destruct start_date, end_date; simpl;
    rewrite ?matches_insert, ?matches_empty, ?Hu, ?Hd, ?andb_true_r
      by (rewrite ?lookup_insert_ne; done);
    try reflexivity; apply andb_comm.
Qed.


Lemma Forall_forallb {A} (f : A -> bool) (l : list A) :
  forallb f l = true -> List.Forall (λ x, f x = true) l.
Proof.
  intros H. apply List.Forall_forall. by apply forallb_forall.
Qed.

(** The sample world after three submissions. *)
Lemma three_logs_db_eq : db Sample.three_logs = Some Sample.three_logs_db.
Proof. vm_compute. reflexivity. Qed.

Lemma three_logs_reachable : fault Sample.three_logs_db = None.
Proof. vm_compute. reflexivity. Qed.

Lemma three_logs_entries :
  List.Forall (λ e, Spec.is_entry e = true) (collection Sample.three_logs_db "steplog").
Proof. apply Forall_forallb. vm_compute. reflexivity. Qed.

(** ** Listing step logs *)

(** What [list_steps] returns when the store answers. *)
Lemma list_steps_run (float_repr : Q -> string) (user : option string)
    (start_date end_date : option date) (limit : option Z) (w : world) (d : database) :
  db w = Some d -> fault d = None ->
  list_steps float_repr user start_date end_date limit w
  = (inr (map (serialize_doc float_repr)
            (take (Z.to_nat (default 50 limit))
               (List.filter (matches (list_steps_query user start_date end_date))
                  (collection d "steplog")))),
     {| db := db w; now := now w;
        calls := (calls w ++ [GetDocuments "steplog"
                                (list_steps_query user start_date end_date)
                                (default 50 limit)])%list |}).
Proof.
  intros Hdb Hf. unfold list_steps, get_documents. unfold_M.
  rewrite Hdb. simpl. rewrite Hdb, Hf. reflexivity.
Qed.

(** A listing that returns went through a configured, reachable store. *)
Lemma list_steps_returns_inv (float_repr : Q -> string) (user : option string)
    (start_date end_date : option date) (limit : option Z) (w w' : world)
    (rs : list (gmap string value)) :
  list_steps float_repr user start_date end_date limit w = (inr rs, w') ->
  ∃ d, db w = Some d ∧ fault d = None.
Proof.
  unfold list_steps, get_documents. unfold_M.
  destruct (db w) as [d|] eqn:Hdb; simpl; [|discriminate].
  rewrite Hdb. destruct (fault d) eqn:Hf; [discriminate|]. eauto.
Qed.

(** C6: every record [list_steps] returns is the reshaping of a stored
    step-log document: it has no [_id] field; the stored identifier is
    exposed as the string [str(_id)] under [id]; and the other fields of
    the response model (user, steps, date, note, created_at, updated_at)
    are the stored ones. *)
Theorem list_steps_exposes_id (float_repr : Q -> string) (user : option string)
    (start_date end_date : option date) (limit : option Z) (w w' : world)
    (rs : list (gmap string value)) :
  list_steps float_repr user start_date end_date limit w = (inr rs, w') ->
  ∃ d, db w = Some d ∧
    ∀ r, In r rs ->
      r !! "_id" = None ∧
      ∃ stored, In stored (collection d "steplog") ∧
        r = serialize_doc float_repr stored ∧
        (∀ v, stored !! "_id" = Some v -> r !! "id" = Some (VStr (str float_repr v))) ∧
        (∀ k, In k StepEntryOut_fields -> k ≠ "id" -> r !! k = stored !! k).
Proof.
  intros Hrun.
  destruct (list_steps_returns_inv _ _ _ _ _ _ _ _ Hrun) as (d & Hdb & Hf).
  exists d. split; [done|].
  rewrite (list_steps_run _ _ _ _ _ _ d Hdb Hf) in Hrun.
  injection Hrun as <- _. intros r Hr.
  apply in_map_iff in Hr as (stored & <- & Hin).
  split; [apply serialize_doc_no_internal_id|].
  exists stored. split.
  { apply list_elem_of_In, elem_of_take in Hin as (i & Hi & _).
    apply list_elem_of_lookup_2, list_elem_of_In, filter_In in Hi. tauto. }
  split; [done|]. split.
  { intros v Hv. by apply serialize_doc_lookup_id. }
  intros k Hk Hne. apply serialize_doc_lookup_other; [|done].
  intros ->. simpl in Hk. intuition discriminate.
Qed.

(** ** Sorting and list comprehensions *)

Section SortBy.
Context {A : Type} (before : A -> A -> bool).
Hypothesis before_total : ∀ x y, before x y = false -> before y x = true.

Lemma insert_sorted_Permutation (x : A) (l : list A) :
  Permutation (insert_sorted before x l) (x :: l).
Proof.
  induction l as [|y l IH]; simpl; [reflexivity|].
  destruct (before x y); [reflexivity|].
  rewrite IH. apply perm_swap.
Qed.

Lemma sort_by_Permutation (l : list A) : Permutation (sort_by before l) l.
Proof.
  induction l as [|x l IH]; simpl; [reflexivity|].
  rewrite insert_sorted_Permutation. by constructor.
Qed.

Lemma insert_sorted_HdRel (a x : A) (l : list A) :
  before a x = true -> HdRel (λ u v, before u v = true) a l ->
  HdRel (λ u v, before u v = true) a (insert_sorted before x l).
Proof.
  intros Hax Hl. destruct l as [|y l]; simpl; [by constructor|].
  destruct (before x y); constructor; [done|].
  by apply HdRel_inv in Hl.
Qed.

Lemma insert_sorted_Sorted (x : A) (l : list A) :
  Sorted (λ u v, before u v = true) l ->
  Sorted (λ u v, before u v = true) (insert_sorted before x l).
Proof.
  induction 1 as [|y l Hl IH Hhd]; simpl; [repeat constructor|].
  destruct (before x y) eqn:Hxy.
  - repeat constructor; done.
  - constructor; [done|]. apply insert_sorted_HdRel; [|done].
    by apply before_total.
Qed.

Lemma sort_by_Sorted (l : list A) :
  Sorted (λ u v, before u v = true) (sort_by before l).
Proof.
  induction l as [|x l IH]; simpl; [constructor|].
  by apply insert_sorted_Sorted.
Qed.
End SortBy.

Lemma Sorted_take {A} (R : A -> A -> Prop) (n : nat) (l : list A) :
  Sorted R l -> Sorted R (take n l).
Proof.
  intros Hl; revert n; induction Hl as [|x l Hl IH Hhd]; intros [|n]; simpl;
    try constructor; [apply IH|].
  destruct Hhd; destruct n; simpl; by constructor.
Qed.

Lemma Sorted_weaken {A} (R R' : A -> A -> Prop) (l : list A) :
  (∀ x y, R x y -> R' x y) -> Sorted R l -> Sorted R' l.
Proof.
  intros HR; induction 1 as [|x l Hl IH Hhd]; constructor; [done|].
  destruct Hhd; constructor; auto.
Qed.

Lemma Sorted_map {A B} (f : A -> B) (R : B -> B -> Prop) (l : list A) :
  Sorted (λ x y, R (f x) (f y)) l -> Sorted R (map f l).
Proof.
  induction 1 as [|x l Hl IH Hhd]; simpl; constructor; [done|].
  destruct Hhd; simpl; by constructor.
Qed.

Lemma Sorted_Forall2 {A B} (P : A -> B -> Prop) (R : A -> A -> Prop)
    (R' : B -> B -> Prop) (l : list A) (l' : list B) :
  (∀ x y x' y', P x x' -> P y y' -> R x y -> R' x' y') ->
  Forall2 P l l' -> Sorted R l -> Sorted R' l'.
Proof.
  intros HR HF; induction HF as [|x x' l l' Hx HF IH]; intros Hs; [constructor|].
  apply Sorted_inv in Hs as [Hs Hhd]. constructor; [by apply IH|].
  destruct HF as [|y y' l l' Hy HF]; constructor.
  apply HdRel_inv in Hhd. eauto.
Qed.

Lemma Forall2_with_left {A B} (R : A -> B -> Prop) (Q : A -> Prop)
    (l : list A) (l' : list B) :
  Forall2 R l l' -> List.Forall Q l -> Forall2 (λ x y, R x y ∧ Q x) l l'.
Proof.
  induction 1 as [|x y l l' Hxy Hl IH]; intros HQ; [constructor|].
  apply List.Forall_cons_iff in HQ as [Hx HQ]. constructor; auto.
Qed.

Lemma comprehension_Forall2 {A B} (f : A -> exn + B) (l : list A) (ys : list B) :
  comprehension f l = inr ys -> Forall2 (λ x y, f x = inr y) l ys.
Proof.
  revert ys; induction l as [|x l IH]; simpl; intros ys H.
  - injection H as <-. constructor.
  - destruct (f x) as [e|y] eqn:Hx; [discriminate|].
    destruct (comprehension f l) as [e|ys'] eqn:Hl; [discriminate|].
    injection H as <-. constructor; auto.
Qed.

Lemma comprehension_map {A B C} (f : B -> exn + C) (h : A -> B) (l : list A) :
  comprehension f (map h l) = comprehension (λ x, f (h x)) l.
Proof. induction l as [|x l IH]; simpl; [done|]. by rewrite IH. Qed.

Lemma comprehension_total {A B} (f : A -> exn + B) (g : A -> B) (l : list A) :
  (∀ x, In x l -> f x = inr (g x)) -> comprehension f l = inr (map g l).
Proof.
  induction l as [|x l IH]; simpl; intros H; [done|].
  rewrite (H x) by auto. rewrite IH by auto. done.
Qed.

(** ** The order of stored values *)

Lemma lex_antisym (c c' r r' : comparison) :
  c' = CompOpp c -> r' = CompOpp r -> lex c' r' = CompOpp (lex c r).
Proof. intros -> ->. by destruct c. Qed.

Lemma datetime_compare_antisym (a b : datetime) :
  datetime_compare b a = CompOpp (datetime_compare a b).
Proof.
  unfold datetime_compare.
  repeat apply lex_antisym;
    auto using date_compare_antisym, Z.compare_antisym.
Qed.

Lemma bson_compare_antisym (a b : value) :
  bson_compare b a = CompOpp (bson_compare a b).
Proof.
  unfold bson_compare. apply lex_antisym; [apply Z.compare_antisym|].
  destruct a, b; simpl;
    auto using datetime_compare_antisym, N.compare_antisym, String.compare_antisym.
  all: symmetry; apply Qcompare_antisym.
Qed.

Lemma descending_total (field : string) (x y : gmap string value) :
  descending field x y = false -> descending field y x = true.
Proof.
  unfold descending. rewrite (bson_compare_antisym (sort_key field x)).
  by destruct (bson_compare (sort_key field x) (sort_key field y)).
Qed.

(** On numbers the order is the order of their values. *)
Lemma bson_compare_numbers (a b : value) (p q : Q) :
  number a = Some p -> number b = Some q -> bson_compare a b = Qcompare p q.
Proof.
  destruct a, b; simpl; try discriminate; intros [= <-] [= <-]; reflexivity.
Qed.

(** ** [int] on numbers *)

Lemma int_of_number (v : value) (q : Q) :
  number v = Some q -> int v = Some (Qtrunc q).
Proof.
  destruct v; simpl; try discriminate; intros [= <-]; [|done].
  unfold Qtrunc; simpl. by rewrite Z.quot_1_r.
Qed.

Lemma Zdiv_cross_mono (a b c d : Z) :
  0 < b -> 0 < d -> 0 <= c -> c * b <= a * d -> c / d <= a / b.
Proof.
  intros Hb Hd Hc Hle.
  apply Z.div_le_lower_bound; [done|].
  pose proof (Z.mul_div_le c d Hd).
  assert (0 <= c / d) by (apply Z.div_pos; lia).
  nia.
Qed.

(** Truncation towards zero is monotone. *)
Lemma Qtrunc_mono (p q : Q) : (q <= p)%Q -> Qtrunc q <= Qtrunc p.
Proof.
  unfold Qle, Qtrunc. destruct p as [a b], q as [c d]; simpl. intros Hle.
  assert (Hb : 0 < Z.pos b) by lia. assert (Hd : 0 < Z.pos d) by lia.
  destruct (Z.le_gt_cases 0 c) as [Hc|Hc].
  - assert (0 <= a) by nia.
    rewrite !Z.quot_div_nonneg by lia. by apply Zdiv_cross_mono.
  - assert (Hcq : c ÷ Z.pos d <= 0).
    { rewrite <- (Z.opp_involutive c), Z.quot_opp_l by lia.
      pose proof (Z.quot_pos (- c) (Z.pos d)). lia. }
    destruct (Z.le_gt_cases 0 a) as [Ha|Ha].
    + pose proof (Z.quot_pos a (Z.pos b)). lia.
    + rewrite <- (Z.opp_involutive c), <- (Z.opp_involutive a).
      rewrite !(Z.quot_opp_l (- _)) by lia.
      rewrite !Z.quot_div_nonneg by lia.
      apply Z.opp_le_mono. rewrite !Z.opp_involutive.
      apply Zdiv_cross_mono; lia.
Qed.

(** The sum of a group is a number. *)
Lemma num_add_number (acc x : value) (p : Q) :
  number acc = Some p -> ∃ q, number (num_add acc x) = Some q.
Proof.
  intros Hp. unfold num_add.
  destruct acc; try discriminate; destruct x; simpl; eauto.
Qed.

Lemma group_add_numbers (k x : value) (gs : list (value * value)) :
  List.Forall (λ g : value * value, ∃ q, number g.2 = Some q) gs ->
  List.Forall (λ g : value * value, ∃ q, number g.2 = Some q) (group_add k x gs).
Proof.
  induction 1 as [|[k' t] gs [q Hq] Hgs IH]; cbn [group_add].
  - constructor; [|constructor].
    exact (num_add_number (VInt 0) x 0%Q eq_refl).
  - destruct (bson_eqb k' k); constructor; try done.
    + exact (num_add_number t x q Hq).
    + by exists q.
Qed.

Lemma group_fold_numbers (key summed : string) (docs : list (gmap string value))
    (gs : list (value * value)) :
  List.Forall (λ g : value * value, ∃ q, number g.2 = Some q) gs ->
  List.Forall (λ g : value * value, ∃ q, number g.2 = Some q)
    (fold_left (group_step key summed) docs gs).
Proof.
  revert gs; induction docs as [|d docs IH]; intros gs Hgs; simpl; [done|].
  apply IH. by apply group_add_numbers.
Qed.


(** Two rows made from documents in descending order of a numeric
    [total_steps] are in descending order of their totals. *)
Lemma leaderboard_row_descending (x y : gmap string value) (a b : LeaderboardRow) :
  (∃ t q, x !! "total_steps" = Some t ∧ number t = Some q) ->
  (∃ t q, y !! "total_steps" = Some t ∧ number t = Some q) ->
  leaderboard_row x = inr a -> leaderboard_row y = inr b ->
  descending "total_steps" x y = true -> total_steps b <= total_steps a.
Proof.
  intros (tx & p & Htx & Hp) (ty & q & Hty & Hq).
  unfold leaderboard_row, descending, sort_key. rewrite Htx, Hty.
  rewrite (int_of_number _ _ Hp), (int_of_number _ _ Hq).
  destruct (x !! "user") as [ux|]; [|discriminate].
  destruct (y !! "user") as [uy|]; [|discriminate].
  destruct ux; try discriminate. destruct uy; try discriminate.
  intros [= <-] [= <-]; simpl.
  rewrite (bson_compare_numbers _ _ _ _ Hp Hq).
  intros Hcmp. apply Qtrunc_mono.
  destruct (Qcompare p q) eqn:Hpq; try discriminate.
  - apply Qeq_alt in Hpq. rewrite Hpq. apply Qle_refl.
  - apply Qgt_alt in Hpq. by apply Qlt_le_weak.
Qed.

(** ** The leaderboard pipeline *)

Lemma filter_all {A} (f : A -> bool) (l : list A) :
  (∀ x, f x = true) -> List.filter f l = l.
Proof.
  intros Hf; induction l as [|x l IH]; simpl; [done|]. by rewrite Hf, IH.
Qed.

(** The documents the pipeline yields: the entries within the bounds,
    grouped, sorted, truncated and projected; a limit that is not positive
    is refused by the store. *)
Lemma leaderboard_pipeline_run (start_date end_date : option date) (limit : Z)
    (docs : list (gmap string value)) :
  run_pipeline (leaderboard_pipeline start_date end_date limit) docs
  = if 0 <? limit then
      inr (map (project leaderboard_projection)
             (take (Z.to_nat limit)
                (sort_by (descending "total_steps")
                   (group "user" "total_steps" "steps"
                      (List.filter (matches (leaderboard_match start_date end_date))
                         docs)))))
    else inl (Exception "the limit must be positive").
Proof.
  unfold leaderboard_pipeline.
  destruct (decide (leaderboard_match start_date end_date = ∅)) as [Hm|Hm].
  - rewrite bool_decide_eq_false_2 by (intros H; by apply H).
    rewrite Hm, (filter_all _ docs) by apply matches_empty. simpl.
    by destruct (0 <? limit).
  - rewrite bool_decide_eq_true_2 by done. simpl.
    by destruct (0 <? limit).
Qed.

Lemma project_leaderboard_total (d : gmap string value) :
  project leaderboard_projection d !! "total_steps" = d !! "total_steps".
Proof.
  unfold project. rewrite lookup_union, map_lookup_imap.
  replace (leaderboard_projection !! "_id") with (Some Exclude) by reflexivity.
  replace (leaderboard_projection !! "total_steps") with (Some Include) by reflexivity.
  simpl. rewrite lookup_empty. by destruct (d !! "total_steps").
Qed.

Lemma project_leaderboard_user (d : gmap string value) :
  project leaderboard_projection d !! "user" = d !! "_id".
Proof.
  unfold project. rewrite lookup_union, map_lookup_imap.
  replace (leaderboard_projection !! "_id") with (Some Exclude) by reflexivity.
  replace (leaderboard_projection !! "user") with (Some (Field "_id")) by reflexivity.
  simpl. rewrite lookup_empty. by destruct (d !! "_id").
Qed.

(** Every document the leaderboard pipeline yields has a number under
    [total_steps]. *)
Lemma leaderboard_results_numbers (start_date end_date : option date) (limit : Z)
    (docs results : list (gmap string value)) :
  run_pipeline (leaderboard_pipeline start_date end_date limit) docs = inr results ->
  List.Forall (λ r : gmap string value,
                 ∃ t q, r !! "total_steps" = Some t ∧ number t = Some q) results.
Proof.
  rewrite leaderboard_pipeline_run.
  destruct (0 <? limit); [|discriminate]. intros [= <-].
  apply List.Forall_map, Forall_take.
  eapply Permutation_Forall; [symmetry; apply sort_by_Permutation|].
  unfold group. apply List.Forall_map.
  eapply List.Forall_impl; [|apply group_fold_numbers; constructor].
  intros [k t] [q Hq]. exists t, q. split; [|done].
  rewrite project_leaderboard_total.
  rewrite lookup_insert_ne by done. apply lookup_singleton_eq.
Qed.

(** What [leaderboard] returns when the store answers. *)
Lemma leaderboard_run (start_date end_date : option date) (limit : option Z)
    (w : world) (d : database) :
  db w = Some d -> fault d = None ->
  leaderboard start_date end_date limit w
  = (match run_pipeline (leaderboard_pipeline start_date end_date (default 10 limit))
             (collection d "steplog") with
     | inr results => comprehension leaderboard_row results
     | inl e => inl e
     end,
     {| db := db w; now := now w;
        calls := (calls w ++ [Aggregate "steplog"
                    (leaderboard_pipeline start_date end_date (default 10 limit))])%list |}).
Proof.
  intros Hdb Hf. unfold leaderboard, aggregate. unfold_M.
  rewrite Hdb. simpl. rewrite Hdb, Hf.
  by destruct (run_pipeline _ _).
Qed.

(** A leaderboard that returns went through a configured, reachable store,
    whose aggregation returned the documents the rows are made from. *)
Lemma leaderboard_returns_inv (start_date end_date : option date) (limit : option Z)
    (w w' : world) (rows : list LeaderboardRow) :
  leaderboard start_date end_date limit w = (inr rows, w') ->
  ∃ d results, db w = Some d ∧ fault d = None ∧
    aggregate "steplog" (leaderboard_pipeline start_date end_date (default 10 limit)) w
      = (inr results, w') ∧
    run_pipeline (leaderboard_pipeline start_date end_date (default 10 limit))
      (collection d "steplog") = inr results ∧
    comprehension leaderboard_row results = inr rows.
Proof.
  unfold leaderboard, aggregate. unfold_M.
  destruct (db w) as [d|] eqn:Hdb; simpl; [|discriminate].
  rewrite Hdb. destruct (fault d) eqn:Hf; [discriminate|].
  destruct (run_pipeline _ _) as [e|results] eqn:Hrun; [discriminate|].
  intros [= Hrows <-]. exists d, results. by rewrite Hrun.
Qed.

(** ** Date bounds in the two queries *)

Lemma leaderboard_pipeline_filter (start_date end_date : option date) (limit : Z)
    (docs : list (gmap string value)) :
  run_pipeline (leaderboard_pipeline start_date end_date limit) docs
  = run_pipeline (leaderboard_stages limit)
      (List.filter (matches (leaderboard_match start_date end_date)) docs).
Proof.
  unfold leaderboard_pipeline.
  destruct (decide (leaderboard_match start_date end_date = ∅)) as [Hm|Hm].
  - rewrite bool_decide_eq_false_2 by (intros H; by apply H).
    by rewrite Hm, (filter_all _ docs) by apply matches_empty.
  - by rewrite bool_decide_eq_true_2 by done.
Qed.

(** C4 (amended): the query of [list_steps] and the [match] of
    [leaderboard] take their date constraint by the rule of the
    specification, and the two operations work on exactly the stored
    documents that satisfy it: [list_steps] reshapes the first [limit] of
    them that also have the requested user, [leaderboard] groups them.  On
    an entry dated [x] the constraint holds exactly when [x] is not before
    the start date, if one is given, and not after the end date, if one is
    given; with no bound every document passes.  So an entry dated on the
    start date is selected exactly when it is not after the end date, if
    one is given, and an entry dated on the end date exactly when it is not
    before the start date, if one is given: always with one bound, and with
    two unless the start date is after the end date. *)
Theorem date_bounds_rule (float_repr : Q -> string) (user : option string)
    (start_date end_date : option date) (limit : option Z) (w : world) (d : database) :
  db w = Some d -> fault d = None ->
  list_steps_query user start_date end_date !! "date"
    = Spec.date_filter start_date end_date ∧
  leaderboard_match start_date end_date !! "date"
    = Spec.date_filter start_date end_date ∧
  (list_steps float_repr user start_date end_date limit w).1
    = inr (map (serialize_doc float_repr)
             (take (Z.to_nat (default 50 limit))
                (List.filter (matches (list_steps_query user start_date end_date))
                   (collection d "steplog")))) ∧
  (leaderboard start_date end_date limit w).1
    = match run_pipeline (leaderboard_stages (default 10 limit))
              (List.filter (matches (leaderboard_match start_date end_date))
                 (collection d "steplog")) with
      | inr results => comprehension leaderboard_row results
      | inl e => inl e
      end ∧
  (∀ (doc : gmap string value) (x : date), doc !! "date" = Some (VDate x) ->
     matches (leaderboard_match start_date end_date) doc
       = Spec.within start_date end_date x ∧
     matches (list_steps_query user start_date end_date) doc
       = Spec.user_selected user doc && Spec.within start_date end_date x) ∧
  (start_date = None -> end_date = None ->
   ∀ doc : gmap string value,
     matches (leaderboard_match start_date end_date) doc = true ∧
     matches (list_steps_query user start_date end_date) doc
       = Spec.user_selected user doc) ∧
  (∀ x, start_date = Some x ->
     Spec.within start_date end_date x = from_option (date_le x) true end_date) ∧
  (∀ x, end_date = Some x ->
     Spec.within start_date end_date x
     = from_option (λ s, date_le s x) true start_date).
Proof.
  intros Hdb Hf.
  split; [apply list_steps_query_lookup|].
  split; [apply leaderboard_match_lookup|].
  split; [by rewrite (list_steps_run _ _ _ _ _ _ d Hdb Hf)|].
  split.
  { rewrite (leaderboard_run _ _ _ _ d Hdb Hf). simpl.
    by rewrite leaderboard_pipeline_filter. }
  split.
  { intros doc x Hx. split.
    - by apply leaderboard_match_matches.
    - by apply list_steps_query_matches. }
  split.
  { intros -> -> doc. split; [apply matches_empty|].
    unfold list_steps_query, Spec.user_selected. destruct user as [u|]; simpl.
    - destruct (negb (String.eqb u "")); [|apply matches_empty].
      by rewrite matches_insert, matches_empty, andb_true_r.
    - apply matches_empty. }
  split.
  - intros x ->. unfold Spec.within; simpl. by rewrite date_le_refl.
  - intros x ->. unfold Spec.within; simpl. by rewrite date_le_refl, andb_true_r.
Qed.

Lemma date_bounds_rule_witness :
  (leaderboard (Some (Date 2024 1 1)) (Some (Date 2024 1 2)) None Sample.three_logs).1
  = match run_pipeline (leaderboard_stages 10)
            (List.filter
               (matches (leaderboard_match (Some (Date 2024 1 1)) (Some (Date 2024 1 2))))
               (collection Sample.three_logs_db "steplog")) with
    | inr results => comprehension leaderboard_row results
    | inl e => inl e
    end ∧
  Spec.within (Some (Date 2024 1 1)) (Some (Date 2024 1 2)) (Date 2024 1 1) = true.
Proof.
  destruct (date_bounds_rule (λ _, "") (Some "alice")
              (Some (Date 2024 1 1)) (Some (Date 2024 1 2)) None
              Sample.three_logs Sample.three_logs_db
              three_logs_db_eq three_logs_reachable)
    as (_ & _ & _ & Hboard & _ & _ & Hstart & _).
  split; [exact Hboard|].
  rewrite (Hstart (Date 2024 1 1) eq_refl). reflexivity.
Defined.

(** C4, as stated, fails when the start date is after the end date, which
    both operations accept: the stored entries dated on the start date and
    on the end date are then selected by neither, and the leaderboard and
    the listing are empty. *)
Lemma inverted_bounds_select_nothing :
  map (λ doc : gmap string value, doc !! "date")
    (collection Sample.three_logs_db "steplog")
  = [ Some (VDate (Date 2024 1 1)); Some (VDate (Date 2024 1 2));
      Some (VDate (Date 2024 1 3)) ] ∧
  db Sample.three_logs = Some Sample.three_logs_db ∧
  (leaderboard (Some (Date 2024 1 2)) (Some (Date 2024 1 1)) None Sample.three_logs).1
  = inr [] ∧
  (list_steps (λ _, "") None (Some (Date 2024 1 2)) (Some (Date 2024 1 1)) None
     Sample.three_logs).1 = inr [].
Proof.
  repeat split; vm_compute; reflexivity.
Qed.

(** ** Leaderboard rows *)

(** C10: the total of every row [leaderboard] returns is an integer, the
    [int] of the [total_steps] value the aggregation yielded for that row;
    on a sum that is not an integer [int] truncates towards zero. *)
Theorem leaderboard_totals_are_int (start_date end_date : option date)
    (limit : option Z) (w w' : world) (rows : list LeaderboardRow) :
  leaderboard start_date end_date limit w = (inr rows, w') ->
  ∃ results,
    aggregate "steplog" (leaderboard_pipeline start_date end_date (default 10 limit)) w
      = (inr results, w') ∧
    Forall2 (λ r row, ∃ t, r !! "total_steps" = Some t ∧
                           int t = Some (total_steps row) ∧
                           ∀ q, t = VFloat q -> total_steps row = Qtrunc q)
      results rows.
Proof.
  intros Hrun.
  apply leaderboard_returns_inv in Hrun as (d & results & _ & _ & Hagg & _ & Hrows).
  exists results. split; [done|].
  apply comprehension_Forall2 in Hrows.
  eapply Forall2_impl; [exact Hrows|]. intros r row. simpl.
  unfold leaderboard_row.
  destruct (r !! "user") as [u|]; [|discriminate].
  destruct (r !! "total_steps") as [t|]; [|discriminate].
  destruct (int t) as [n|] eqn:Hn; [|discriminate].
  destruct u; try discriminate. intros [= <-]. simpl.
  exists t. split; [done|]. split; [done|].
  intros q ->. simpl in Hn. congruence.
Qed.

Lemma leaderboard_totals_are_int_witness :
  ∃ w',
    leaderboard None None None Sample.float_steps
      = (inr [ {| user := "alice"; total_steps := 3 |} ], w') ∧
    ∃ results,
      aggregate "steplog" (leaderboard_pipeline None None 10) Sample.float_steps
        = (inr results, w') ∧
      Forall2 (λ r row, ∃ t, r !! "total_steps" = Some t ∧
                             int t = Some (total_steps row) ∧
                             ∀ q, t = VFloat q -> total_steps row = Qtrunc q)
        results [ {| user := "alice"; total_steps := 3 |} ].
Proof.
  eexists. split; [vm_compute; reflexivity|].
  apply (leaderboard_totals_are_int None None None Sample.float_steps).
  vm_compute; reflexivity.
Defined.

(** C5: [leaderboard] returns at most [limit] rows, 10 when the request
    gives no limit, and the rows are in descending order of
    [total_steps]. *)
Theorem leaderboard_limited_and_sorted (start_date end_date : option date)
    (limit : option Z) (w w' : world) (rows : list LeaderboardRow) :
  leaderboard start_date end_date limit w = (inr rows, w') ->
  Z.of_nat (length rows) <= default 10 limit ∧
  StronglySorted (λ a b, total_steps b <= total_steps a) rows.
Proof.
  intros Hrun.
  apply leaderboard_returns_inv in Hrun as (d & results & _ & _ & _ & Hpipe & Hrows).
  pose proof (leaderboard_results_numbers _ _ _ _ _ Hpipe) as Hnum.
  rewrite leaderboard_pipeline_run in Hpipe.
  destruct (0 <? default 10 limit) eqn:Hpos; [|discriminate].
  apply Z.ltb_lt in Hpos. injection Hpipe as <-.
  apply comprehension_Forall2 in Hrows. split.
  - rewrite <- (Forall2_length _ _ _ Hrows), length_map, length_take. lia.
  - apply Sorted_StronglySorted.
    { intros a b c ? ?. lia. }
    eapply (Sorted_Forall2 _ (λ x y, descending "total_steps" x y = true));
      [|exact (Forall2_with_left _ _ _ _ Hrows Hnum)|].
    { intros x y a b [Hx Hnx] [Hy Hny]. by apply leaderboard_row_descending. }
    apply Sorted_map.
    eapply Sorted_weaken;
      [|apply Sorted_take, (sort_by_Sorted (descending "total_steps"))].
    + intros x y. unfold descending, sort_key.
      by rewrite !project_leaderboard_total.
    + apply descending_total.
Qed.


(** ** Grouping entries *)

Lemma string_compare_refl (a : string) : String.compare a a = Eq.
Proof.
  pose proof (String.compare_antisym a a) as H.
  by destruct (String.compare a a).
Qed.

Lemma bson_eqb_strings (a b : string) : bson_eqb (VStr a) (VStr b) = String.eqb a b.
Proof.
  unfold bson_eqb, bson_compare; simpl.
  destruct (String.compare a b) eqn:Hc.
  - apply String.compare_eq_iff in Hc as ->. by rewrite String.eqb_refl.
  - symmetry. apply String.eqb_neq. intros ->.
    by rewrite string_compare_refl in Hc.
  - symmetry. apply String.eqb_neq. intros ->.
    by rewrite string_compare_refl in Hc.
Qed.

Lemma is_entry_fields (d : gmap string value) :
  Spec.is_entry d = true ->
  ∃ x, d !! "user" = Some (VStr (Spec.user_of d)) ∧
       d !! "steps" = Some (VInt (Spec.steps_of d)) ∧
       d !! "date" = Some (VDate x).
Proof.
  unfold Spec.is_entry, Spec.user_of, Spec.steps_of.
  destruct (d !! "user") as [[]|]; try discriminate.
  destruct (d !! "steps") as [[]|]; try discriminate.
  destruct (d !! "date") as [[]|]; try discriminate.
  eauto.
Qed.

Lemma group_add_tally (u : string) (n : Z) (t : list (string * Z)) :
  group_add (VStr u) (VInt n) (map Spec.group_of t)
  = map Spec.group_of (Spec.tally_add u n t).
Proof.
  induction t as [|[u' m] t IH]; simpl; [done|].
  rewrite bson_eqb_strings. destruct (String.eqb u' u); simpl; [done|].
  by rewrite IH.
Qed.

Lemma group_fold_tally (docs : list (gmap string value)) (t : list (string * Z)) :
  List.Forall (λ d, Spec.is_entry d = true) docs ->
  fold_left (group_step "user" "steps") docs (map Spec.group_of t)
  = map Spec.group_of (fold_left Spec.tally_step docs t).
Proof.
  intros Hwf; revert t; induction Hwf as [|d docs Hd _ IH]; intros t; simpl; [done|].
  rewrite <- IH. f_equal. unfold group_step, Spec.tally_step.
  destruct (is_entry_fields d Hd) as (x & -> & -> & _). simpl.
  apply group_add_tally.
Qed.

Lemma group_entries (docs : list (gmap string value)) :
  List.Forall (λ d, Spec.is_entry d = true) docs ->
  group "user" "total_steps" "steps" docs
  = map (λ p, Spec.group_doc (Spec.group_of p)) (Spec.tally docs).
Proof.
  intros Hwf. unfold group, Spec.tally.
  change (@nil (value * value)) with (map Spec.group_of []).
  rewrite (group_fold_tally docs [] Hwf), map_map. reflexivity.
Qed.

(** *** The tally *)

Lemma tally_get_add (u u' : string) (n : Z) (t : list (string * Z)) :
  Spec.tally_get u' (Spec.tally_add u n t)
  = if String.eqb u u' then Some (default 0 (Spec.tally_get u t) + n)
    else Spec.tally_get u' t.
Proof.
  induction t as [|[k m] t IH]; simpl.
  - destruct (String.eqb u u'); reflexivity.
  - destruct (String.eqb k u) eqn:Hku; simpl.
    + apply String.eqb_eq in Hku as ->. by destruct (String.eqb u u').
    + rewrite IH. destruct (String.eqb u u') eqn:Huu'; [|done].
      apply String.eqb_eq in Huu' as <-. by rewrite Hku.
Qed.

Lemma tally_keys_add (u : string) (n : Z) (t : list (string * Z)) :
  map fst (Spec.tally_add u n t)
  = match Spec.tally_get u t with
    | Some _ => map fst t
    | None => (map fst t ++ [u])%list
    end.
Proof.
  induction t as [|[k m] t IH]; simpl; [done|].
  destruct (String.eqb k u); simpl; [done|].
  rewrite IH. by destruct (Spec.tally_get u t).
Qed.

Lemma tally_get_In (u : string) (m : Z) (t : list (string * Z)) :
  Spec.tally_get u t = Some m -> In (u, m) t.
Proof.
  induction t as [|[k m'] t IH]; simpl; [discriminate|].
  destruct (String.eqb k u) eqn:Hk.
  - apply String.eqb_eq in Hk as ->. intros [= ->]. by left.
  - auto.
Qed.

Lemma tally_get_None (u : string) (t : list (string * Z)) :
  Spec.tally_get u t = None <-> ¬ In u (map fst t).
Proof.
  induction t as [|[k m] t IH]; simpl; [tauto|].
  destruct (String.eqb k u) eqn:Hk.
  - apply String.eqb_eq in Hk. split; [discriminate|]. tauto.
  - apply String.eqb_neq in Hk. rewrite IH. tauto.
Qed.

Lemma tally_In_get (u : string) (m : Z) (t : list (string * Z)) :
  List.NoDup (map fst t) -> In (u, m) t -> Spec.tally_get u t = Some m.
Proof.
  induction t as [|[k m'] t IH]; simpl; [tauto|].
  intros Hnd [[= -> ->]|Hin].
  - by rewrite String.eqb_refl.
  - apply List.NoDup_cons_iff in Hnd as [Hk Hnd].
    destruct (String.eqb k u) eqn:Hku; [|auto].
    apply String.eqb_eq in Hku as ->. exfalso. apply Hk.
    apply in_map_iff. by exists (u, m).
Qed.

Lemma tally_keys_add_NoDup (u : string) (n : Z) (t : list (string * Z)) :
  List.NoDup (map fst t) -> List.NoDup (map fst (Spec.tally_add u n t)).
Proof.
  intros Hnd. rewrite tally_keys_add.
  destruct (Spec.tally_get u t) eqn:Hg; [done|].
  apply tally_get_None in Hg.
  apply List.NoDup_app; [done|repeat constructor; by intros []|].
  intros x Hx [<-|[]]. done.
Qed.

Lemma user_total_cons (u : string) (d : gmap string value)
    (docs : list (gmap string value)) :
  Spec.user_total u (d :: docs)
  = (if Spec.by_user u d then Spec.steps_of d else 0) + Spec.user_total u docs.
Proof.
  unfold Spec.user_total; simpl. by destruct (Spec.by_user u d).
Qed.

(** The tally of a user after more entries: what it was, plus the steps of
    the user's entries among them. *)
Lemma tally_fold (docs : list (gmap string value)) (t : list (string * Z)) (u : string) :
  List.NoDup (map fst t) ->
  List.NoDup (map fst (fold_left Spec.tally_step docs t)) ∧
  Spec.tally_get u (fold_left Spec.tally_step docs t)
  = match Spec.tally_get u t with
    | Some m => Some (m + Spec.user_total u docs)
    | None => if existsb (Spec.by_user u) docs then Some (Spec.user_total u docs)
              else None
    end.
Proof.
  revert t; induction docs as [|d docs IH]; intros t Hnd.
  { split; [done|]. simpl. destruct (Spec.tally_get u t); [|done].
    f_equal. change (Spec.user_total u []) with 0. lia. }
  destruct (IH (Spec.tally_step t d)) as [Hnd' Hget].
  { by apply tally_keys_add_NoDup. }
  split; [done|]. simpl fold_left. rewrite Hget. unfold Spec.tally_step.
  rewrite tally_get_add, user_total_cons. simpl existsb.
  replace (Spec.by_user u d) with (String.eqb (Spec.user_of d) u) by reflexivity.
  destruct (String.eqb (Spec.user_of d) u) eqn:Hu; simpl.
  - apply String.eqb_eq in Hu. rewrite Hu.
    destruct (Spec.tally_get u t); simpl; f_equal; lia.
  - reflexivity.
Qed.

Lemma tally_spec (docs : list (gmap string value)) :
  List.NoDup (map fst (Spec.tally docs)) ∧
  ∀ u, Spec.tally_get u (Spec.tally docs)
       = if existsb (Spec.by_user u) docs then Some (Spec.user_total u docs) else None.
Proof.
  split.
  - apply (tally_fold docs [] ""). constructor.
  - intros u. apply (tally_fold docs [] u). constructor.
Qed.

Lemma In_users (u : string) (docs : list (gmap string value)) :
  In u (Spec.users docs) <-> existsb (Spec.by_user u) docs = true.
Proof.
  unfold Spec.users. rewrite nodup_In, in_map_iff, existsb_exists.
  unfold Spec.by_user. split.
  - intros (d & <- & Hd). exists d. by rewrite String.eqb_refl.
  - intros (d & Hd & Hu). exists d. by apply String.eqb_eq in Hu.
Qed.

Lemma tally_keys_users (docs : list (gmap string value)) :
  Permutation (map fst (Spec.tally docs)) (Spec.users docs).
Proof.
  destruct (tally_spec docs) as [Hnd Hget].
  apply Permutation.NoDup_Permutation; [done|apply NoDup_nodup|].
  intros u. rewrite In_users.
  pose proof (tally_get_None u (Spec.tally docs)) as Hnone.
  rewrite Hget in Hnone.
  destruct (existsb (Spec.by_user u) docs).
  - split; [done|]. intros _.
    destruct (in_dec String.string_dec u (map fst (Spec.tally docs))); [done|].
    apply Hnone in n. discriminate.
  - split; [|discriminate]. intros Hin. by apply Hnone in Hin.
Qed.

(** *** Sorting commutes with the encoding of groups *)

Lemma insert_sorted_map {A B} (f : A -> B) (before : B -> B -> bool) (x : A)
    (l : list A) :
  insert_sorted before (f x) (map f l)
  = map f (insert_sorted (λ a b, before (f a) (f b)) x l).
Proof.
  induction l as [|y l IH]; simpl; [done|].
  destruct (before (f x) (f y)); simpl; [done|]. by rewrite IH.
Qed.

Lemma sort_by_map {A B} (f : A -> B) (before : B -> B -> bool) (l : list A) :
  sort_by before (map f l) = map f (sort_by (λ a b, before (f a) (f b)) l).
Proof.
  induction l as [|x l IH]; simpl; [done|].
  by rewrite IH, insert_sorted_map.
Qed.

Lemma In_firstn {A} (x : A) (n : nat) (l : list A) : In x (firstn n l) -> In x l.
Proof.
  revert l; induction n as [|n IH]; intros [|y l]; simpl; try tauto.
  intros [->|H]; auto.
Qed.

Lemma NoDup_firstn {A} (n : nat) (l : list A) :
  List.NoDup l -> List.NoDup (firstn n l).
Proof.
  intros Hnd; revert n; induction Hnd as [|x l Hx Hnd IH]; intros [|n]; simpl;
    try constructor; [|apply IH].
  intros Hin. by apply Hx, In_firstn with n.
Qed.

(** *** Rows from groups *)

Lemma leaderboard_row_of_group (p : string * Z) :
  leaderboard_row (project leaderboard_projection (Spec.group_doc (Spec.group_of p)))
  = inr (Spec.row_of p).
Proof.
  unfold leaderboard_row.
  rewrite project_leaderboard_user, project_leaderboard_total.
  unfold Spec.group_doc, Spec.group_of; simpl.
  rewrite lookup_insert_eq, lookup_insert_ne, lookup_singleton_eq by done.
  reflexivity.
Qed.

Lemma selected_matches (start_date end_date : option date)
    (docs : list (gmap string value)) :
  List.Forall (λ d, Spec.is_entry d = true) docs ->
  List.filter (matches (leaderboard_match start_date end_date)) docs
  = Spec.selected start_date end_date docs.
Proof.
  unfold Spec.selected.
  induction 1 as [|d docs Hd _ IH]; simpl; [done|].
  destruct (is_entry_fields d Hd) as (x & _ & _ & Hx).
  rewrite (leaderboard_match_matches _ _ d x Hx), IH.
  unfold Spec.in_bounds. by rewrite Hx.
Qed.

Lemma selected_entries (start_date end_date : option date)
    (docs : list (gmap string value)) :
  List.Forall (λ d, Spec.is_entry d = true) docs ->
  List.Forall (λ d, Spec.is_entry d = true) (Spec.selected start_date end_date docs).
Proof.
  rewrite !List.Forall_forall. unfold Spec.selected.
  intros H d Hd. apply filter_In in Hd. apply H. tauto.
Qed.

(** On a store of step-log entries the leaderboard is the tally of the
    entries within the bounds, sorted, truncated and turned into rows. *)
Lemma leaderboard_on_entries (start_date end_date : option date) (limit : option Z)
    (w : world) (d : database) :
  db w = Some d -> fault d = None -> 0 < default 10 limit ->
  List.Forall (λ e, Spec.is_entry e = true) (collection d "steplog") ->
  leaderboard start_date end_date limit w
  = (inr (map Spec.row_of
            (firstn (Z.to_nat (default 10 limit))
               (sort_by Spec.richer
                  (Spec.tally (Spec.selected start_date end_date
                                 (collection d "steplog")))))),
     {| db := db w; now := now w;
        calls := (calls w ++ [Aggregate "steplog"
                    (leaderboard_pipeline start_date end_date (default 10 limit))])%list |}).
Proof.
  intros Hdb Hf Hpos Hwf.
  rewrite (leaderboard_run _ _ _ _ d Hdb Hf). f_equal.
  rewrite leaderboard_pipeline_run.
  rewrite (proj2 (Z.ltb_lt _ _) Hpos). cbv beta iota.
  rewrite selected_matches by done.
  rewrite group_entries by by apply selected_entries.
  rewrite sort_by_map. fold Spec.richer.
  rewrite firstn_map, map_map, comprehension_map.
  apply comprehension_total. intros p _. apply leaderboard_row_of_group.
Qed.

Lemma leaderboard_limited_and_sorted_witness :
  ∃ rows w',
    leaderboard None None (Some 1) Sample.three_logs = (inr rows, w') ∧
    Z.of_nat (length rows) <= 1 ∧
    StronglySorted (λ a b, total_steps b <= total_steps a) rows.
Proof.
  pose proof (leaderboard_on_entries None None (Some 1)
                Sample.three_logs Sample.three_logs_db
                three_logs_db_eq three_logs_reachable eq_refl three_logs_entries) as Hrun.
  eexists _, _. split; [exact Hrun|].
  exact (leaderboard_limited_and_sorted _ _ _ _ _ _ Hrun).
Defined.

(** C1 (amended): on a store of step-log entries, with a positive limit,
    [leaderboard] returns rows for distinct users, at most [limit] of them
    (10 when the request gives none); every row is for a user that has an
    entry within the bounds and carries the arithmetic sum of the steps of
    that user's entries within the bounds, so a user without such an entry
    never appears; and every user with such an entry has a row when there
    are at most [limit] such users. *)
Theorem leaderboard_sums_per_user (start_date end_date : option date)
    (limit : option Z) (w : world) (d : database) :
  db w = Some d -> fault d = None -> 0 < default 10 limit ->
  List.Forall (λ e, Spec.is_entry e = true) (collection d "steplog") ->
  ∃ rows w',
    leaderboard start_date end_date limit w = (inr rows, w') ∧
    List.NoDup (map user rows) ∧
    (∀ row, In row rows ->
       In (user row)
          (Spec.users (Spec.selected start_date end_date (collection d "steplog"))) ∧
       total_steps row
       = Spec.user_total (user row)
           (Spec.selected start_date end_date (collection d "steplog"))) ∧
    length rows
    = Nat.min (Z.to_nat (default 10 limit))
        (length (Spec.users (Spec.selected start_date end_date (collection d "steplog")))) ∧
    ((length (Spec.users (Spec.selected start_date end_date (collection d "steplog")))
      <= Z.to_nat (default 10%Z limit))%nat ->
     ∀ u, In u (Spec.users (Spec.selected start_date end_date (collection d "steplog"))) ->
          ∃ row, In row rows ∧ user row = u).
Proof.
  intros Hdb Hf Hpos Hwf.
  set (entries := Spec.selected start_date end_date (collection d "steplog")).
  set (n := Z.to_nat (default 10 limit)).
  destruct (tally_spec entries) as [Hnd Hget].
  pose proof (sort_by_Permutation Spec.richer (Spec.tally entries)) as Hperm.
  pose proof (tally_keys_users entries) as Hkeys.
  eexists _, _. split; [by apply (leaderboard_on_entries _ _ _ _ d)|].
  fold entries n. rewrite map_map.
  change (λ x, user (Spec.row_of x)) with (@fst string Z).
  split.
  { rewrite <- firstn_map. apply NoDup_firstn.
    eapply Permutation.Permutation_NoDup; [|exact Hnd].
    symmetry. by apply Permutation_map. }
  split.
  { intros row Hrow. apply in_map_iff in Hrow as ([u m] & <- & Hp). simpl.
    apply In_firstn in Hp. apply (Permutation_in _ Hperm) in Hp.
    apply (tally_In_get _ _ _ Hnd) in Hp. rewrite Hget in Hp.
    rewrite In_users.
    destruct (existsb (Spec.by_user u) entries); [|discriminate].
    by injection Hp as <-. }
  split.
  { rewrite length_map, length_firstn.
    rewrite (Permutation_length Hperm), <- (Permutation_length Hkeys).
    by rewrite length_map. }
  intros Hlen u Hu.
  apply (Permutation_in _ (Permutation_sym Hkeys)) in Hu.
  apply in_map_iff in Hu as ([u' m] & <- & Hp). simpl.
  exists (Spec.row_of (u', m)). split; [|done].
  apply (Permutation_in _ (Permutation_sym Hperm)) in Hp.
  apply (in_map Spec.row_of) in Hp.
  rewrite firstn_all2; [exact Hp|].
  rewrite (Permutation_length Hperm), <- (length_map fst).
  by rewrite (Permutation_length Hkeys).
Qed.

Lemma leaderboard_sums_per_user_witness :
  ∃ rows w',
    leaderboard (Some (Date 2024 1 1)) (Some (Date 2024 1 2)) None Sample.three_logs
    = (inr rows, w') ∧
    List.NoDup (map user rows) ∧
    ∀ row, In row rows ->
      total_steps row
      = Spec.user_total (user row)
          (Spec.selected (Some (Date 2024 1 1)) (Some (Date 2024 1 2))
             (collection Sample.three_logs_db "steplog")).
Proof.
  destruct (leaderboard_sums_per_user (Some (Date 2024 1 1)) (Some (Date 2024 1 2)) None
              Sample.three_logs Sample.three_logs_db
              three_logs_db_eq three_logs_reachable eq_refl three_logs_entries)
    as (rows & w' & Hrun & Hnd & Hrows & _).
  exists rows, w'. split; [exact Hrun|]. split; [exact Hnd|].
  intros row Hrow. exact (proj2 (Hrows row Hrow)).
Defined.

(** C1, as stated, fails when there are more users with entries than the
    limit allows rows: with a limit of 1 only the user with the highest
    total has a row, although the other user has entries too. *)
Lemma leaderboard_truncates_users :
  db Sample.three_logs = Some Sample.three_logs_db ∧
  In "alice" (Spec.users (Spec.selected None None
                            (collection Sample.three_logs_db "steplog"))) ∧
  (leaderboard None None (Some 1) Sample.three_logs).1
  = inr [ {| user := "bob"; total_steps := 9000 |} ].
Proof.
  split; [vm_compute; reflexivity|]. split; [|vm_compute; reflexivity].
  vm_compute. left. reflexivity.
Qed.

Lemma list_steps_exposes_id_witness :
  ∃ rs w',
    list_steps (λ _, "") (Some "alice") None None None Sample.three_logs = (inr rs, w') ∧
    ∀ r, In r rs -> r !! "_id" = None.
Proof.
  pose proof (list_steps_run (λ _, "") (Some "alice") None None None
                Sample.three_logs Sample.three_logs_db
                three_logs_db_eq three_logs_reachable) as Hrun.
  eexists _, _. split; [exact Hrun|].
  destruct (list_steps_exposes_id _ _ _ _ _ _ _ _ Hrun) as (d & _ & Hall).
  intros r Hr. exact (proj1 (Hall r Hr)).
Defined.

(** ** Creating and finding a step log *)



Lemma oid_str_inj (m n : N) : oid_str m = oid_str n -> m = n.
Proof. apply pretty_N_inj. Qed.

(** The document [create_document] stores. *)
Lemma create_document_run (collection_name : string) (payload : gmap string value)
    (w : world) (d : database) :
  db w = Some d -> fault d = None ->
  create_document collection_name payload w
  = (inr (oid_str (next_oid d)),
     {| db := Some (insert_one collection_name
                      (<["_id" := VOid (next_oid d)]>
                         (<["updated_at" := VDatetime (now w)]>
                            (<["created_at" := VDatetime (now w)]> payload))) d);
        now := now w;
        calls := (calls w ++ [CreateDocument collection_name payload])%list |}).
Proof.
  intros Hdb Hf. unfold create_document. unfold_M. simpl. by rewrite Hdb, Hf.
Qed.

(** A call that does not succeed leaves the database as it was. *)
Lemma create_document_raises (collection_name : string) (payload : gmap string value)
    (w : world) :
  (∀ d, db w = Some d -> fault d ≠ None) ->
  ∃ e, create_document collection_name payload w
       = (inl e, {| db := db w; now := now w;
                    calls := (calls w ++ [CreateDocument collection_name payload])%list |}).
Proof.
  intros H. unfold create_document. unfold_M. simpl.
  destruct (db w) as [d|] eqn:Hdb; [|eauto].
  destruct (fault d) eqn:Hf; [eauto|]. by destruct (H d).
Qed.

Lemma issued_by_create (handler : M world (gmap string value))
    (collection_name : string) (payload : gmap string value) (w : world) :
  handler
  = (handle ← gets db;
     match handle with
     | None => raise not_configured
     | Some _ =>
         inserted_id ← create_document collection_name payload;
         mret {[ "id" := VStr inserted_id ]}
     end) ->
  (Server.counter w <= Server.counter (handler w).2)%N ∧
  ∀ i, In i (Server.issued (handler w).1) ->
    ∃ n, i = oid_str n ∧ (Server.counter w <= n < Server.counter (handler w).2)%N.
Proof.
  intros ->. unfold Server.counter.
  destruct (db w) as [d|] eqn:Hdb.
  - destruct (fault d) as [msg|] eqn:Hf.
    + destruct (create_document_raises collection_name payload w) as [e He].
      { intros d' Hd'. rewrite Hdb in Hd'. injection Hd' as <-. by rewrite Hf. }
      unfold_M. rewrite Hdb. simpl. unfold_M. rewrite He. simpl. rewrite Hdb. simpl.
      split; [lia|]. intros i [].
    + pose proof (create_document_run collection_name payload w d Hdb Hf) as Hrun.
      unfold_M. rewrite Hdb. simpl. unfold_M. rewrite Hrun. simpl.
      split; [lia|].
      unfold Server.issued. rewrite lookup_singleton_eq.
      intros i [<-|[]]. exists (next_oid d). split; [done|lia].
  - unfold_M. rewrite Hdb. simpl. rewrite Hdb. simpl. split; [lia|]. intros i [].
Qed.

Lemma list_steps_keeps_db (float_repr : Q -> string) (user : option string)
    (start_date end_date : option date) (limit : option Z) (w : world) :
  db (list_steps float_repr user start_date end_date limit w).2 = db w.
Proof.
  unfold list_steps, get_documents. unfold_M.
  destruct (db w) as [d|] eqn:Hdb; simpl; [|done].
  rewrite Hdb. by destruct (fault d).
Qed.

Lemma leaderboard_keeps_db (start_date end_date : option date) (limit : option Z)
    (w : world) :
  db (leaderboard start_date end_date limit w).2 = db w.
Proof.
  unfold leaderboard, aggregate. unfold_M.
  destruct (db w) as [d|] eqn:Hdb; simpl; [|done].
  rewrite Hdb. destruct (fault d); [done|].
  destruct (run_pipeline _ _) as [e|results]; [done|]. simpl.
  by destruct (comprehension leaderboard_row results).
Qed.

(** The identifiers a request issues come from the counter it advances. *)
Lemma serve_counter (float_repr : Q -> string) (r : Server.request) (w : world) :
  (Server.counter w <= Server.counter (Server.serve float_repr r w).2)%N ∧
  ∀ i, In i (Server.serve float_repr r w).1 ->
    ∃ n, i = oid_str n ∧
         (Server.counter w <= n < Server.counter (Server.serve float_repr r w).2)%N.
Proof.
  destruct r as [log|u|user s e limit|s e limit]; simpl.
  - by apply (issued_by_create _ "steplog" (Schemas.StepLog_dump log)).
  - by apply (issued_by_create _ "user" (Schemas.User_dump u)).
  - unfold Server.counter. rewrite list_steps_keeps_db. split; [lia|]. intros i [].
  - unfold Server.counter. rewrite leaderboard_keeps_db. split; [lia|]. intros i [].
Qed.

Lemma serve_all_counter (float_repr : Q -> string) (rs : list Server.request)
    (w : world) :
  (Server.counter w <= Server.counter (Server.serve_all float_repr rs w).2)%N ∧
  ∀ i, In i (Server.serve_all float_repr rs w).1 ->
    ∃ n, i = oid_str n ∧
         (Server.counter w <= n < Server.counter (Server.serve_all float_repr rs w).2)%N.
Proof.
  revert w; induction rs as [|r rs IH]; intros w; simpl.
  { split; [lia|]. intros i []. }
  destruct (serve_counter float_repr r w) as [Hle Hids].
  destruct (IH (Server.serve float_repr r w).2) as [Hle' Hids'].
  split; [lia|]. intros i Hi. apply in_app_or in Hi as [Hi|Hi].
  - destruct (Hids i Hi) as (n & -> & Hn). exists n. split; [done|lia].
  - destruct (Hids' i Hi) as (n & -> & Hn). exists n. split; [done|lia].
Qed.


Lemma collection_insert_one (collection_name : string) (stored : gmap string value)
    (d : database) :
  collection (insert_one collection_name stored d) collection_name
  = (collection d collection_name ++ [stored])%list.
Proof. unfold collection at 1, insert_one; simpl. by rewrite lookup_insert_eq. Qed.





(** * Further properties *)

(** ** [serialize_doc] *)

(** X1: reshaping a reshaped document changes nothing, because the first
    pass leaves no [_id] behind. *)
Theorem serialize_doc_idempotent (float_repr : Q -> string) (d : gmap string value) :
  serialize_doc float_repr (serialize_doc float_repr d) = serialize_doc float_repr d.
Proof.
  unfold serialize_doc at 1. by rewrite serialize_doc_no_internal_id.
Qed.

(** X2: the keys of the output: those of the input with [_id] replaced by
    [id] when the input has an [_id], the same keys otherwise.  So the
    output never has more fields than the input. *)
Theorem serialize_doc_keys (float_repr : Q -> string) (d : gmap string value) :
  dom (serialize_doc float_repr d)
  = match d !! "_id" with
    | Some _ => {[ "id" ]} ∪ (dom d ∖ {[ "_id" ]})
    | None => dom d
    end ∧
  (size (serialize_doc float_repr d) <= size d)%nat.
Proof.
  unfold serialize_doc. destruct (d !! "_id") as [v|] eqn:Hid; [|done].
  split; [by rewrite dom_insert_L, dom_delete_L|].
  destruct (delete "_id" d !! "id") as [x|] eqn:Hx.
  - rewrite map_size_insert_Some by done.
    rewrite <- (insert_delete_id d "_id" v Hid) at 2.
    rewrite map_size_insert_None by apply lookup_delete_eq. lia.
  - rewrite map_size_insert_None by done.
    rewrite <- (insert_delete_id d "_id" v Hid) at 2.
    rewrite map_size_insert_None by apply lookup_delete_eq. lia.
Qed.

(** X3: called on its own result, [serialize_doc] allocates once more: the
    two results are different objects with equal contents, and neither call
    touches the objects that were there before. *)
Theorem serialize_doc_twice (float_repr : Q -> string)
    (h : gmap positive (gmap string value)) (l : positive) (d : gmap string value) :
  h !! l = Some d ->
  ∃ l1 h1 l2 h2,
    Heap.serialize_doc float_repr l h = (inr l1, h1) ∧
    Heap.serialize_doc float_repr l1 h1 = (inr l2, h2) ∧
    l1 ≠ l ∧ l2 ≠ l ∧ l2 ≠ l1 ∧
    h2 !! l = Some d ∧
    h2 !! l1 = Some (serialize_doc float_repr d) ∧
    h2 !! l2 = Some (serialize_doc float_repr d).
Proof.
  intros Hl.
  pose proof (heap_serialize_doc_run float_repr h l d Hl) as Hrun1.
  set (l1 := fresh (dom h)) in *.
  set (h1 := <[l1 := serialize_doc float_repr d]> h) in *.
  assert (Hl1 : h !! l1 = None) by apply not_elem_of_dom, is_fresh.
  assert (Hh1 : h1 !! l1 = Some (serialize_doc float_repr d)) by apply lookup_insert_eq.
  pose proof (heap_serialize_doc_run float_repr h1 l1 _ Hh1) as Hrun2.
  assert (Hfix : serialize_doc float_repr (serialize_doc float_repr d)
                 = serialize_doc float_repr d)
    by (unfold serialize_doc at 1; by rewrite serialize_doc_no_internal_id).
  rewrite Hfix in Hrun2.
  set (l2 := fresh (dom h1)) in *.
  assert (Hl2 : h1 !! l2 = None) by apply not_elem_of_dom, is_fresh.
  assert (l1 ≠ l) by congruence.
  assert (l2 ≠ l1) by congruence.
  assert (l2 ≠ l).
  { intros ->. unfold h1 in Hl2. rewrite lookup_insert_ne in Hl2 by done. congruence. }
  exists l1, h1, l2, (<[l2 := serialize_doc float_repr d]> h1).
  repeat split; try done.
  - rewrite lookup_insert_ne by done. unfold h1. by rewrite lookup_insert_ne.
  - by rewrite lookup_insert_ne.
  - apply lookup_insert_eq.
Qed.

Lemma serialize_doc_twice_witness :
  ∃ l1 h1 l2 h2,
    Heap.serialize_doc (λ _, "") 1%positive
      {[ 1%positive := {[ "_id" := VOid 7; "user" := VStr "alice" ]} ]} = (inr l1, h1) ∧
    Heap.serialize_doc (λ _, "") l1 h1 = (inr l2, h2) ∧ l2 ≠ l1.
Proof.
  destruct (serialize_doc_twice (λ _, "")
              {[ 1%positive := {[ "_id" := VOid 7; "user" := VStr "alice" ]} ]}
              1%positive {[ "_id" := VOid 7; "user" := VStr "alice" ]}
              (lookup_singleton_eq _ _))
    as (l1 & h1 & l2 & h2 & H1 & H2 & _ & _ & Hne & _).
  by exists l1, h1, l2, h2.
Defined.

(** ** [test_database] *)

(** X4: the [backend] field is always "✅ Running", and the fields
    [database_url] and [database_name] of the payload tell only whether the
    environment variables [DATABASE_URL] and [DATABASE_NAME] are set to a
    non-empty string: whatever the handle reported, its name included, is
    overwritten before the payload is returned. *)
Theorem test_database_reports_environment (db : option Diagnostics.handle)
    (getenv : string -> option string) :
  ∃ r, Diagnostics.test_database db getenv = inr r ∧
    Diagnostics.backend r = "✅ Running" ∧
    (Diagnostics.database_url r = Some "✅ Set" ∧
       (∃ s, getenv "DATABASE_URL" = Some s ∧ s ≠ "")
     ∨ Diagnostics.database_url r = Some "❌ Not Set" ∧
       (getenv "DATABASE_URL" = None ∨ getenv "DATABASE_URL" = Some "")) ∧
    (Diagnostics.database_name r = Some "✅ Set" ∧
       (∃ s, getenv "DATABASE_NAME" = Some s ∧ s ≠ "")
     ∨ Diagnostics.database_name r = Some "❌ Not Set" ∧
       (getenv "DATABASE_NAME" = None ∨ getenv "DATABASE_NAME" = Some "")).
Proof.
  unfold Diagnostics.test_database.
  destruct db as [[[e|[|]] [e'|n] [e''|ns]]|]; simpl;
    (eexists; split; [reflexivity|]; simpl; split; [reflexivity|]; split;
     [destruct (getenv "DATABASE_URL") as [[|c s]|]
     |destruct (getenv "DATABASE_NAME") as [[|c s]|]]; simpl; eauto 6).
Qed.

(** X5: [connection_status] is "Connected" exactly when there is a handle
    and neither [hasattr(db, 'name')] nor the reading of [db.name] raised;
    otherwise it stays "Not Connected".  A listing of the collections that
    fails does not change it. *)
Theorem test_database_connection_status (db : option Diagnostics.handle)
    (getenv : string -> option string) :
  ∃ r, Diagnostics.test_database db getenv = inr r ∧
    Diagnostics.connection_status r
    = match db with
      | Some h =>
          match Diagnostics.hasattr_name h with
          | inr true =>
              match Diagnostics.get_name h with
              | inr _ => "Connected"
              | inl _ => "Not Connected"
              end
          | inr false => "Connected"
          | inl _ => "Not Connected"
          end
      | None => "Not Connected"
      end.
Proof.
  unfold Diagnostics.test_database.
  destruct db as [[[e|[|]] [e'|n] [e''|ns]]|]; simpl;
    (eexists; split; reflexivity).
Qed.

(** ** Calls to the store *)

(** X6: with a handle present, each data endpoint makes exactly one call to
    the store, whether the call succeeds or raises: [add_steps] and
    [create_user] call [create_document] on "steplog" and on "user" with the
    dumped payload, [list_steps] calls [get_documents] on "steplog" with the
    query it built and the limit, and [leaderboard] calls [aggregate] on
    "steplog" with the pipeline it built. *)
Theorem one_store_call (float_repr : Q -> string) (w : world) (d : database)
    (log : Schemas.StepLog) (u : Schemas.User) (user : option string)
    (start_date end_date : option date) (limit : option Z) :
  db w = Some d ->
  calls (add_steps log w).2
    = (calls w ++ [CreateDocument "steplog" (Schemas.StepLog_dump log)])%list ∧
  calls (create_user u w).2
    = (calls w ++ [CreateDocument "user" (Schemas.User_dump u)])%list ∧
  calls (list_steps float_repr user start_date end_date limit w).2
    = (calls w ++ [GetDocuments "steplog"
                     (list_steps_query user start_date end_date)
                     (default 50 limit)])%list ∧
  calls (leaderboard start_date end_date limit w).2
    = (calls w ++ [Aggregate "steplog"
                     (leaderboard_pipeline start_date end_date (default 10 limit))])%list.
Proof.
  intros Hdb.
  unfold add_steps, create_user, list_steps, leaderboard,
    create_document, get_documents, aggregate.
  unfold_M. rewrite Hdb. simpl. rewrite Hdb.
  destruct (fault d); simpl; [done|].
  repeat split.
  destruct (run_pipeline _ _) as [e|results]; simpl; [done|].
  by destruct (comprehension leaderboard_row results).
Qed.

Lemma one_store_call_witness :
  calls (add_steps Sample.alice_day1 Sample.empty_world).2
  = [CreateDocument "steplog" (Schemas.StepLog_dump Sample.alice_day1)].
Proof.
  exact (proj1 (one_store_call (λ _, "") Sample.empty_world Sample.empty_db
                  Sample.alice_day1 {| Schemas.fields := ∅ |} None None None None
                  eq_refl)).
Defined.

(** ** What a listing returns *)

Lemma matches_lookup (q : gmap string cond) (d : gmap string value) (k : string)
    (c : cond) :
  matches q d = true -> q !! k = Some c -> cond_holds c (d !! k) = true.
Proof.
  unfold matches. rewrite bool_decide_eq_true. intros Hall Hk.
  exact (Hall k c Hk).
Qed.

Lemma list_steps_query_user (u : string) (start_date end_date : option date) :
  u ≠ "" ->
  list_steps_query (Some u) start_date end_date !! "user" = Some (Equals (VStr u)).
Proof.
  intros Hu. unfold list_steps_query.
  apply String.eqb_neq in Hu. rewrite Hu. simpl.
  destruct start_date, end_date;
    rewrite ?lookup_insert_ne by done; apply lookup_insert_eq.
Qed.

Lemma equals_string (u : string) (field : option value) :
  cond_holds (Equals (VStr u)) field = true -> field = Some (VStr u).
Proof.
  unfold cond_holds, bson_eqb, bson_compare.
  destruct field as [[]|]; simpl; try discriminate.
  destruct (String.compare s u) eqn:Hc; try discriminate.
  apply String.compare_eq_iff in Hc. by subst.
Qed.

(** X7: every record [list_steps] returns satisfies the filters of the
    request: it carries the requested user when a non-empty user is given,
    its date lies within the bounds that are given, ends included, and it
    has a date whenever a bound is given. *)
Theorem list_steps_filters (float_repr : Q -> string) (user : option string)
    (start_date end_date : option date) (limit : option Z) (w w' : world)
    (rs : list (gmap string value)) :
  list_steps float_repr user start_date end_date limit w = (inr rs, w') ->
  ∀ r, In r rs ->
    (∀ u, user = Some u -> u ≠ "" -> r !! "user" = Some (VStr u)) ∧
    (∀ x, r !! "date" = Some (VDate x) -> Spec.within start_date end_date x = true) ∧
    (Spec.date_filter start_date end_date ≠ None -> is_Some (r !! "date")).
Proof.
  intros Hrun r Hr.
  destruct (list_steps_returns_inv _ _ _ _ _ _ _ _ Hrun) as (d & Hdb & Hf).
  rewrite (list_steps_run _ _ _ _ _ _ d Hdb Hf) in Hrun.
  injection Hrun as <- _.
  apply in_map_iff in Hr as (stored & <- & Hin).
  apply In_firstn, filter_In in Hin as [_ Hm].
  rewrite !serialize_doc_lookup_other by done.
  pose proof (list_steps_query_lookup user start_date end_date) as Hq.
  split; [|split].
  - intros u -> Hu. apply equals_string.
    apply (matches_lookup _ _ _ _ Hm). by apply list_steps_query_user.
  - intros x Hx. rewrite <- date_filter_holds, <- Hx.
    destruct (Spec.date_filter start_date end_date) as [c|] eqn:Hc; [|done].
    simpl. by apply (matches_lookup _ _ _ _ Hm).
  - intros Hsome.
    destruct (stored !! "date") as [v|] eqn:Hd; [eauto|]. exfalso.
    destruct start_date, end_date; simpl in Hq, Hsome; try done;
      pose proof (matches_lookup _ _ _ _ Hm Hq) as Hc;
      rewrite Hd in Hc; discriminate.
Qed.

Lemma list_steps_filters_witness :
  ∃ rs w',
    list_steps (λ _, "") (Some "alice") (Some (Date 2024 1 2)) None None Sample.three_logs
    = (inr rs, w') ∧
    ∀ r, In r rs -> r !! "user" = Some (VStr "alice").
Proof.
  pose proof (list_steps_run (λ _, "") (Some "alice") (Some (Date 2024 1 2)) None None
                Sample.three_logs Sample.three_logs_db
                three_logs_db_eq three_logs_reachable) as Hrun.
  eexists _, _. split; [exact Hrun|].
  intros r Hr.
  destruct (list_steps_filters _ _ _ _ _ _ _ _ Hrun r Hr) as (Hu & _).
  apply Hu; [reflexivity|discriminate].
Defined.

(** ** What the leaderboard reads *)

Lemma leaderboard_match_agree (start_date end_date : option date)
    (a b : gmap string value) :
  a !! "date" = b !! "date" ->
  matches (leaderboard_match start_date end_date) a
  = matches (leaderboard_match start_date end_date) b.
Proof.
  intros Hd. unfold leaderboard_match.
  destruct start_date, end_date;
    rewrite ?matches_insert, ?matches_empty, ?Hd by done; reflexivity.
Qed.

Lemma filter_Forall2 {A} (R : A -> A -> Prop) (f : A -> bool) (l l' : list A) :
  (∀ a b, R a b -> f a = f b) ->
  Forall2 R l l' -> Forall2 R (List.filter f l) (List.filter f l').
Proof.
  intros Hf; induction 1 as [|a b l l' Hab Hl IH]; simpl; [constructor|].
  rewrite <- (Hf a b Hab). destruct (f a); [by constructor|done].
Qed.

Lemma Forall2_map_eq {A B} (f : A -> B) (l l' : list A) :
  map f l = map f l' -> Forall2 (λ a b, f a = f b) l l'.
Proof.
  revert l'; induction l as [|a l IH]; intros [|b l']; simpl; try discriminate.
  - constructor.
  - intros [= Hab Hl]. constructor; auto.
Qed.

Lemma group_fold_agree (key summed : string) (l l' : list (gmap string value))
    (gs : list (value * value)) :
  Forall2 (λ a b, a !! key = b !! key ∧ a !! summed = b !! summed) l l' ->
  fold_left (group_step key summed) l gs = fold_left (group_step key summed) l' gs.
Proof.
  intros H; revert gs; induction H as [|a b l l' [Hk Hs] Hl IH]; intros gs; simpl;
    [done|].
  unfold group_step at 2 4. by rewrite Hk, Hs.
Qed.

(** X8: the leaderboard reads only the user, the steps and the date of the
    stored entries: two reachable stores whose step-log documents agree on
    these three fields, one by one, give the same result, whatever their
    identifiers, notes and timestamps are. *)
Theorem leaderboard_reads_three_fields (start_date end_date : option date)
    (limit : option Z) (w w' : world) (d d' : database) :
  db w = Some d -> db w' = Some d' -> fault d = None -> fault d' = None ->
  Forall2 (λ a b : gmap string value,
             a !! "user" = b !! "user" ∧ a !! "steps" = b !! "steps" ∧
             a !! "date" = b !! "date")
    (collection d "steplog") (collection d' "steplog") ->
  (leaderboard start_date end_date limit w).1
  = (leaderboard start_date end_date limit w').1.
Proof.
  intros Hdb Hdb' Hf Hf' Hagree.
  rewrite (leaderboard_run _ _ _ _ d Hdb Hf), (leaderboard_run _ _ _ _ d' Hdb' Hf').
  simpl. rewrite !leaderboard_pipeline_run.
  destruct (0 <? default 10 limit); [|done].
  unfold group. erewrite group_fold_agree; [reflexivity|].
  eapply Forall2_impl.
  - eapply (filter_Forall2 _ _ _ _ _ Hagree).
  - simpl. tauto.
  Unshelve. simpl. intros a b (_ & _ & Hd). by apply leaderboard_match_agree.
Qed.

Lemma three_logs_later_agree :
  db Sample.three_logs_later = Some Sample.three_logs_later_db ∧
  fault Sample.three_logs_later_db = None ∧
  Forall2 (λ a b : gmap string value,
             a !! "user" = b !! "user" ∧ a !! "steps" = b !! "steps" ∧
             a !! "date" = b !! "date")
    (collection Sample.three_logs_db "steplog")
    (collection Sample.three_logs_later_db "steplog").
Proof.
  split; [vm_compute; reflexivity|]. split; [vm_compute; reflexivity|].
  eapply Forall2_impl.
  - apply (Forall2_map_eq (λ a : gmap string value,
                             (a !! "user", a !! "steps", a !! "date"))).
    vm_compute. reflexivity.
  - simpl. intros a b [= -> -> ->]. done.
Qed.

Lemma leaderboard_reads_three_fields_witness :
  (leaderboard None None None Sample.three_logs).1
  = (leaderboard None None None Sample.three_logs_later).1.
Proof.
  destruct three_logs_later_agree as (Hdb & Hf & Hagree).
  exact (leaderboard_reads_three_fields None None None _ _ _ _
           three_logs_db_eq Hdb three_logs_reachable Hf Hagree).
Defined.

(** ** Rows are all or nothing *)





(** ** Users and step logs are kept apart *)

Lemma list_steps_result (float_repr : Q -> string) (user : option string)
    (start_date end_date : option date) (limit : option Z) (w1 w2 : world) :
  match db w1, db w2 with
  | None, None => True
  | Some d1, Some d2 =>
      fault d1 = fault d2 ∧ collection d1 "steplog" = collection d2 "steplog"
  | _, _ => False
  end ->
  (list_steps float_repr user start_date end_date limit w1).1
  = (list_steps float_repr user start_date end_date limit w2).1.
Proof.
  unfold list_steps, get_documents. unfold_M.
  destruct (db w1) as [d1|] eqn:H1, (db w2) as [d2|] eqn:H2; simpl; try done.
  rewrite H1, H2. intros [Hf Hc]. rewrite Hf.
  destruct (fault d2); simpl; [done|]. by rewrite Hc.
Qed.

Lemma leaderboard_result (start_date end_date : option date) (limit : option Z)
    (w1 w2 : world) :
  match db w1, db w2 with
  | None, None => True
  | Some d1, Some d2 =>
      fault d1 = fault d2 ∧ collection d1 "steplog" = collection d2 "steplog"
  | _, _ => False
  end ->
  (leaderboard start_date end_date limit w1).1
  = (leaderboard start_date end_date limit w2).1.
Proof.
  unfold leaderboard, aggregate. unfold_M.
  destruct (db w1) as [d1|] eqn:H1, (db w2) as [d2|] eqn:H2; simpl; try done.
  rewrite H1, H2. intros [Hf Hc]. rewrite Hf.
  destruct (fault d2); simpl; [done|]. rewrite Hc.
  destruct (run_pipeline _ _) as [e|results]; [done|]. simpl.
  by destruct (comprehension leaderboard_row results).
Qed.

Lemma create_user_keeps_steplog (u : Schemas.User) (w : world) :
  match db (create_user u w).2, db w with
  | None, None => True
  | Some d1, Some d2 =>
      fault d1 = fault d2 ∧ collection d1 "steplog" = collection d2 "steplog"
  | _, _ => False
  end.
Proof.
  destruct (db w) as [d|] eqn:Hdb.
  - destruct (fault d) as [msg|] eqn:Hf.
    + destruct (create_document_raises "user" (Schemas.User_dump u) w) as [e He].
      { intros d' Hd'. rewrite Hdb in Hd'. injection Hd' as <-. by rewrite Hf. }
      unfold create_user. unfold_M. rewrite Hdb. simpl. unfold_M. rewrite He. simpl.
      by rewrite Hdb.
    + pose proof (create_document_run "user" (Schemas.User_dump u) w d Hdb Hf) as Hrun.
      unfold create_user. unfold_M. rewrite Hdb. simpl. unfold_M. rewrite Hrun. simpl.
      split; [done|]. unfold collection, insert_one; simpl.
      by rewrite lookup_insert_ne.
  - unfold create_user. unfold_M. rewrite Hdb. simpl. by rewrite Hdb.
Qed.

(** X10: creating a user never changes what the step-log endpoints return:
    after [create_user], whether it succeeded or raised, [list_steps] and
    [leaderboard] give the results they gave before. *)
Theorem create_user_leaves_steps (float_repr : Q -> string) (u : Schemas.User)
    (w : world) (user : option string) (start_date end_date : option date)
    (limit : option Z) :
  (list_steps float_repr user start_date end_date limit (create_user u w).2).1
    = (list_steps float_repr user start_date end_date limit w).1 ∧
  (leaderboard start_date end_date limit (create_user u w).2).1
    = (leaderboard start_date end_date limit w).1.
Proof.
  split.
  - apply list_steps_result, create_user_keeps_steplog.
  - apply leaderboard_result, create_user_keeps_steplog.
Qed.

(** ** The step-log collection over a sequence of requests *)

Lemma entry_stored_mono (b b' : N) (d : gmap string value) :
  (b <= b')%N -> Invariant.entry_stored b d -> Invariant.entry_stored b' d.
Proof.
  intros Hb (He & n & Hn & Hlt). split; [done|]. exists n. split; [done|lia].
Qed.

Lemma steplog_ok_add_steps (log : Schemas.StepLog) (t : datetime) (d : database) :
  Invariant.steplog_ok d ->
  Invariant.steplog_ok
    (insert_one "steplog"
       (<["_id" := VOid (next_oid d)]>
          (<["updated_at" := VDatetime t]>
             (<["created_at" := VDatetime t]> (Schemas.StepLog_dump log)))) d).
Proof.
  intros [Hall Hnd]. unfold Invariant.steplog_ok.
  rewrite collection_insert_one. simpl next_oid. split.
  - apply Forall_app. split.
    + eapply List.Forall_impl; [|exact Hall].
      intros x. apply entry_stored_mono. lia.
    + constructor; [|constructor]. split; [reflexivity|].
      exists (next_oid d). split; [reflexivity|lia].
  - rewrite map_app. simpl map.
    replace (_ !! "_id") with (Some (VOid (next_oid d))) by reflexivity.
    apply List.NoDup_app; [done|repeat constructor; by intros []|].
    intros x Hx [<-|[]].
    apply in_map_iff in Hx as (doc & Hid & Hdoc).
    rewrite List.Forall_forall in Hall.
    destruct (Hall doc Hdoc) as (_ & n & Hn & Hlt).
    rewrite Hn in Hid. injection Hid as ->. lia.
Qed.

Lemma steplog_ok_create_user (stored : gmap string value) (d : database) :
  Invariant.steplog_ok d -> Invariant.steplog_ok (insert_one "user" stored d).
Proof.
  intros [Hall Hnd]. unfold Invariant.steplog_ok.
  replace (collection (insert_one "user" stored d) "steplog")
    with (collection d "steplog")
    by (unfold collection, insert_one; simpl; by rewrite lookup_insert_ne).
  split; [|done]. simpl next_oid.
  eapply List.Forall_impl; [|exact Hall]. intros x. apply entry_stored_mono. lia.
Qed.

(** What a create handler does to the database: nothing, or one insertion. *)
Lemma create_handler_db (handler : M world (gmap string value))
    (collection_name : string) (payload : gmap string value) (w : world) :
  handler
  = (handle ← gets db;
     match handle with
     | None => raise not_configured
     | Some _ =>
         inserted_id ← create_document collection_name payload;
         mret {[ "id" := VStr inserted_id ]}
     end) ->
  db (handler w).2 = db w ∨
  ∃ d, db w = Some d ∧
       db (handler w).2
       = Some (insert_one collection_name
                 (<["_id" := VOid (next_oid d)]>
                    (<["updated_at" := VDatetime (now w)]>
                       (<["created_at" := VDatetime (now w)]> payload))) d).
Proof.
  intros ->. destruct (db w) as [d|] eqn:Hdb.
  - destruct (fault d) as [msg|] eqn:Hf.
    + destruct (create_document_raises collection_name payload w) as [e He].
      { intros d' Hd'. rewrite Hdb in Hd'. injection Hd' as <-. by rewrite Hf. }
      left. unfold_M. rewrite Hdb. simpl. unfold_M. rewrite He. simpl. by rewrite Hdb.
    + pose proof (create_document_run collection_name payload w d Hdb Hf) as Hrun.
      right. exists d. split; [done|].
      unfold_M. rewrite Hdb. simpl. unfold_M. by rewrite Hrun.
  - left. unfold_M. rewrite Hdb. simpl. by rewrite Hdb.
Qed.

Lemma store_ok_serve (float_repr : Q -> string) (r : Server.request) (w : world) :
  Invariant.store_ok w -> Invariant.store_ok (Server.serve float_repr r w).2.
Proof.
  unfold Invariant.store_ok. intros Hok.
  destruct r as [log|u|user s e limit|s e limit]; simpl.
  - destruct (create_handler_db (add_steps log) "steplog"
                (Schemas.StepLog_dump log) w eq_refl) as [->|(d & Hdb & ->)]; [done|].
    rewrite Hdb in Hok. by apply steplog_ok_add_steps.
  - destruct (create_handler_db (create_user u) "user"
                (Schemas.User_dump u) w eq_refl) as [->|(d & Hdb & ->)]; [done|].
    rewrite Hdb in Hok. by apply steplog_ok_create_user.
  - by rewrite list_steps_keeps_db.
  - by rewrite leaderboard_keeps_db.
Qed.

(** X11: the step-log collection stays well formed over any sequence of
    requests: if every document in it is a step-log entry (string user,
    integer steps, date) with an identifier below the counter of the store,
    and no two documents share an identifier, then the same holds after the
    requests, whichever of them succeed.  It holds of an empty store. *)
Theorem store_ok_serve_all (float_repr : Q -> string) (rs : list Server.request)
    (w : world) :
  Invariant.store_ok w -> Invariant.store_ok (Server.serve_all float_repr rs w).2.
Proof.
  revert w; induction rs as [|r rs IH]; intros w Hok; simpl; [done|].
  by apply IH, store_ok_serve.
Qed.

Lemma store_ok_serve_all_witness :
  Invariant.store_ok (Server.serve_all (λ _, "") Sample.three_posts Sample.empty_world).2.
Proof.
  apply store_ok_serve_all. split; constructor.
Defined.

(** X12: on a configured and reachable store whose step-log collection
    holds only step-log entries (string user, integer steps, date), each
    with its own identifier, [leaderboard] with a positive limit always
    returns rows: no stored document makes the conversion into rows
    fail. *)
Theorem leaderboard_returns (start_date end_date : option date) (limit : option Z)
    (w : world) (d : database) :
  Invariant.store_ok w -> db w = Some d -> fault d = None -> 0 < default 10 limit ->
  ∃ rows w', leaderboard start_date end_date limit w = (inr rows, w').
Proof.
  intros Hok Hdb Hf Hpos. unfold Invariant.store_ok in Hok. rewrite Hdb in Hok.
  destruct Hok as [Hall _]. eexists _, _.
  apply (leaderboard_on_entries _ _ _ _ d Hdb Hf Hpos).
  eapply List.Forall_impl; [|exact Hall]. by intros x [Hx _].
Qed.

Lemma three_logs_ok : Invariant.store_ok Sample.three_logs.
Proof.
  apply (store_ok_serve (λ _, "") (Server.PostSteps Sample.bob_day3)).
  apply (store_ok_serve (λ _, "") (Server.PostSteps Sample.alice_day2)).
  apply (store_ok_serve (λ _, "") (Server.PostSteps Sample.alice_day1)).
  split; constructor.
Qed.

Lemma leaderboard_returns_witness :
  ∃ rows w', leaderboard None None (Some 3) Sample.three_logs = (inr rows, w').
Proof.
  exact (leaderboard_returns None None (Some 3) Sample.three_logs Sample.three_logs_db
           three_logs_ok three_logs_db_eq three_logs_reachable eq_refl).
Defined.

(** ** Submissions add up *)




(** ** Totals from floats *)

(** X14: a row made from a document whose total is a finite float carries
    that float with its fraction dropped and nothing else: the total lies
    between zero and the float, less than 1 away from it. *)
Theorem leaderboard_row_truncates (r : gmap string value) (row : LeaderboardRow)
    (q : Q) :
  leaderboard_row r = inr row -> r !! "total_steps" = Some (VFloat q) ->
  ((0 <= q)%Q -> (inject_Z (total_steps row) <= q)%Q ∧
                 (q < inject_Z (total_steps row + 1))%Q) ∧
  ((q <= 0)%Q -> (q <= inject_Z (total_steps row))%Q ∧
                 (inject_Z (total_steps row - 1) < q)%Q).
Proof.
  unfold leaderboard_row. intros Hrow Ht. rewrite Ht in Hrow. simpl in Hrow.
  destruct (r !! "user") as [[]|]; try discriminate.
  injection Hrow as <-. simpl.
  unfold Qtrunc, Qle, Qlt, inject_Z. destruct q as [a b]; simpl.
  assert (Hb : 0 < Z.pos b) by lia. rewrite !Z.mul_1_r. split.
  - intros Ha. rewrite Z.quot_div_nonneg by lia.
    pose proof (Z.mul_div_le a (Z.pos b) Hb).
    pose proof (Z.mul_succ_div_gt a (Z.pos b) Hb). split; nia.
  - intros Ha.
    assert (Hq : a ÷ Z.pos b = - (- a / Z.pos b)).
    { rewrite <- (Z.quot_div_nonneg (- a)) by lia.
      rewrite Z.quot_opp_l by lia. lia. }
    rewrite Hq.
    pose proof (Z.mul_div_le (- a) (Z.pos b) Hb).
    pose proof (Z.mul_succ_div_gt (- a) (Z.pos b) Hb). split; nia.
Qed.

Lemma leaderboard_row_truncates_witness :
  leaderboard_row {[ "user" := VStr "alice"; "total_steps" := VFloat (-7 # 2) ]}
    = inr {| user := "alice"; total_steps := -3 |} ∧
  (-7 # 2 <= inject_Z (-3))%Q ∧ (inject_Z (-3 - 1) < -7 # 2)%Q.
Proof.
  split; [vm_compute; reflexivity|].
  apply (leaderboard_row_truncates
           {[ "user" := VStr "alice"; "total_steps" := VFloat (-7 # 2) ]}
           {| user := "alice"; total_steps := -3 |} (-7 # 2)).
  - vm_compute. reflexivity.
  - vm_compute. reflexivity.
  - discriminate.
Defined.

(** ** The order of the stored entries *)

Lemma user_total_Permutation (u : string) (l l' : list (gmap string value)) :
  Permutation l l' -> Spec.user_total u l = Spec.user_total u l'.
Proof.
  induction 1 as [|x l l' _ IH|x y l|l l' l'' _ IH1 _ IH2];
    rewrite ?user_total_cons; lia.
Qed.

Lemma existsb_Permutation {A} (f : A -> bool) (l l' : list A) :
  Permutation l l' -> existsb f l = existsb f l'.
Proof.
  induction 1 as [|x l l' _ IH|x y l|l l' l'' _ IH1 _ IH2]; simpl;
    [done|by rewrite IH|by destruct (f x), (f y)|congruence].
Qed.

Lemma filter_Permutation' {A} (f : A -> bool) (l l' : list A) :
  Permutation l l' -> Permutation (List.filter f l) (List.filter f l').
Proof.
  induction 1 as [|x l l' _ IH|x y l|l l' l'' _ IH1 _ IH2]; simpl.
  - constructor.
  - destruct (f x); [by constructor|done].
  - destruct (f x), (f y); try reflexivity. apply perm_swap.
  - by etransitivity.
Qed.

Lemma tally_Permutation (l l' : list (gmap string value)) :
  Permutation l l' -> Permutation (Spec.tally l) (Spec.tally l').
Proof.
  intros Hperm.
  destruct (tally_spec l) as [Hnd Hget], (tally_spec l') as [Hnd' Hget'].
  assert (Hsame : ∀ u, Spec.tally_get u (Spec.tally l) = Spec.tally_get u (Spec.tally l')).
  { intros u. rewrite Hget, Hget'.
    by rewrite (existsb_Permutation _ _ _ Hperm), (user_total_Permutation u _ _ Hperm). }
  apply Permutation.NoDup_Permutation.
  - by apply NoDup_map_inv with (f := fst).
  - by apply NoDup_map_inv with (f := fst).
  - intros [u m]. split; intros Hin.
    + apply tally_get_In. rewrite <- Hsame. by apply tally_In_get.
    + apply tally_get_In. rewrite Hsame. by apply tally_In_get.
Qed.

(** X15: the leaderboard does not depend on the order in which the entries
    are stored.  On two reachable stores whose step-log entries are the same
    up to their order, with a positive limit that all the users with
    entries within the bounds fit in, [leaderboard] returns the same rows up
    to their order. *)
Theorem leaderboard_order_of_entries (start_date end_date : option date)
    (limit : option Z) (w w' : world) (d d' : database) :
  db w = Some d -> db w' = Some d' -> fault d = None -> fault d' = None ->
  0 < default 10 limit ->
  List.Forall (λ e, Spec.is_entry e = true) (collection d "steplog") ->
  Permutation (collection d "steplog") (collection d' "steplog") ->
  (length (Spec.users (Spec.selected start_date end_date (collection d "steplog")))
   <= Z.to_nat (default 10%Z limit))%nat ->
  ∃ rows rows' w1 w1',
    leaderboard start_date end_date limit w = (inr rows, w1) ∧
    leaderboard start_date end_date limit w' = (inr rows', w1') ∧
    Permutation rows rows'.
Proof.
  intros Hdb Hdb' Hf Hf' Hpos Hwf Hperm Hfit.
  assert (Hwf' : List.Forall (λ e, Spec.is_entry e = true) (collection d' "steplog")).
  { rewrite List.Forall_forall in *. intros x Hx. apply Hwf.
    by apply (Permutation_in _ (Permutation_sym Hperm)). }
  pose proof (tally_Permutation _ _
                (filter_Permutation' (Spec.in_bounds start_date end_date) _ _ Hperm))
    as Htally.
  fold (Spec.selected start_date end_date (collection d "steplog")) in Htally.
  fold (Spec.selected start_date end_date (collection d' "steplog")) in Htally.
  rewrite <- (Permutation_length (tally_keys_users _)), length_map in Hfit.
  eexists _, _, _, _.
  split; [by apply (leaderboard_on_entries _ _ _ _ d)|].
  split; [by apply (leaderboard_on_entries _ _ _ _ d')|].
  rewrite !firstn_all2.
  - apply Permutation_map.
    rewrite (sort_by_Permutation Spec.richer), (sort_by_Permutation Spec.richer).
    exact Htally.
  - rewrite (Permutation_length (sort_by_Permutation Spec.richer _)).
    by rewrite <- (Permutation_length Htally).
  - by rewrite (Permutation_length (sort_by_Permutation Spec.richer _)).
Qed.

Lemma leaderboard_order_of_entries_witness :
  ∃ rows rows' w1 w1',
    leaderboard None None None Sample.three_logs = (inr rows, w1) ∧
    leaderboard None None None Sample.three_logs_reversed = (inr rows', w1') ∧
    Permutation rows rows'.
Proof.
  apply (leaderboard_order_of_entries None None None
           Sample.three_logs Sample.three_logs_reversed
           Sample.three_logs_db _ three_logs_db_eq eq_refl three_logs_reachable eq_refl
           eq_refl three_logs_entries).
  - unfold collection at 2. simpl. rewrite lookup_singleton_eq. simpl.
    apply Permutation_rev.
  - vm_compute. lia.
Defined.

(** ** Identifiers *)

Lemma issued_short (response : exn + gmap string value) :
  (length (Server.issued response) <= 1)%nat.
Proof.
  unfold Server.issued. destruct response as [e|body]; simpl; [lia|].
  destruct (body !! "id") as [[]|]; simpl; lia.
Qed.

Lemma NoDup_short {A} (l : list A) : (length l <= 1)%nat -> List.NoDup l.
Proof.
  destruct l as [|x [|y l]]; simpl; intros H; try lia; repeat constructor.
  by intros [].
Qed.

(** X16: over any sequence of requests, the identifiers the create
    endpoints return are pairwise distinct, step logs and users alike. *)
Theorem issued_ids_distinct (float_repr : Q -> string) (rs : list Server.request)
    (w : world) :
  List.NoDup (Server.serve_all float_repr rs w).1.
Proof.
  revert w; induction rs as [|r rs IH]; intros w; simpl; [constructor|].
  apply List.NoDup_app; [|apply IH|].
  - apply NoDup_short. destruct r; simpl; auto using issued_short.
  - intros i Hi Hi'.
    destruct (serve_counter float_repr r w) as [_ Hids].
    destruct (Hids i Hi) as (n & -> & Hn).
    destruct (serve_all_counter float_repr rs (Server.serve float_repr r w).2)
      as [_ Hids'].
    destruct (Hids' _ Hi') as (m & Heq & Hm).
    apply oid_str_inj in Heq as <-. lia.
Qed.
